(** * PDFViewer: a shallow embedding of [app.py]

    The development follows the three classes of the program:
    [PdfToImage] (the page sequence), [Canvas] (fit geometry, centering and
    the mouse-drag rectangle) and [Window] (the controller with its
    navigation buttons).  Python [int]s are [Z]; Python [float]s are the
    rationals they denote, every operation rounding to binary64. *)

From Stdlib Require Import ZArith QArith Qround Qabs Qpower Qreduction.
From Stdlib Require Qcanon SpecFloat.
From Stdlib Require Import Lia Lqa Bool List String Ascii DecimalString.
Import ListNotations.

Local Open Scope Z_scope.

(** * Python numbers *)

Module PyFloat.

(** A Python [float] is an IEEE-754 binary64 number.  The program only
    divides, multiplies and subtracts values derived from 32-bit widget
    sizes, so neither overflow nor subnormal numbers can arise; a float is
    represented by the rational number it denotes, and every operation
    rounds its exact result to [prec] significant bits, ties to even. *)

Definition float : Type := Q.

Definition prec : Z := 53.

(** [rne n d]: the integer nearest to [n / d] (for [0 <= n], [0 < d]),
    the even one when [n / d] is half-way between two integers. *)
Definition rne (n d : Z) : Z :=
  let q := n / d in
  match 2 * (n mod d) ?= d with
  | Lt => q
  | Gt => q + 1
  | Eq => if Z.even q then q else q + 1
  end.

(** The numerator and the denominator of [(a / d) * 2 ^ (- e)]. *)
Definition scaled_num (a e : Z) : Z := if 0 <=? e then a else a * 2 ^ (- e).
Definition scaled_den (d e : Z) : Z := if 0 <=? e then d * 2 ^ e else d.

(** The exponent [e] of the last place of [a / d]:
    [2 ^ (prec - 1) <= (a / d) * 2 ^ (- e) < 2 ^ prec]. *)
Definition ulp_exponent (a d : Z) : Z :=
  let s := Z.log2 a - Z.log2 d - prec in
  if 2 ^ prec * scaled_den d s <=? scaled_num a s then s + 1 else s.

Definition round_pos (a d : Z) : float :=
  let e := ulp_exponent a d in
  (inject_Z (rne (scaled_num a e) (scaled_den d e)) * 2 ^ e)%Q.

Definition round (q : Q) : float :=
  let r := Qred q in
  match Qnum r with
  | Z0 => 0%Q
  | Zpos a => round_pos (Zpos a) (Zpos (Qden r))
  | Zneg a => (- round_pos (Zpos a) (Zpos (Qden r)))%Q
  end.

(** [float(n)], the implicit conversion of an [int] operand. *)
Definition of_int (n : Z) : float := round (inject_Z n).

(** [a / b] on two [int]s: the correctly rounded quotient, or
    [ZeroDivisionError] ([None]). *)
Definition truediv (a b : Z) : option float :=
  if b =? 0 then None else Some (round (inject_Z a / inject_Z b)).

(** [n / 2], the divisor being the literal [2]. *)
Definition half (n : Z) : float := round (inject_Z n / 2).

Definition mul (x y : float) : float := round (x * y).
Definition sub (x y : float) : float := round (x - y).

(** [int(x)]: truncation towards zero. *)
Definition to_int (x : float) : Z :=
  if Qle_bool 0 x then Qfloor x else Qceiling x.

End PyFloat.

(** The binary64 operations of the Standard Library's [SpecFloat], to
    compare [PyFloat] with. *)
Module Binary64.

Definition to_Q (f : SpecFloat.spec_float) : Q :=
  match f with
  | SpecFloat.S754_finite s m e =>
      ((if s then - inject_Z (Zpos m) else inject_Z (Zpos m)) * 2 ^ e)%Q
  | _ => 0%Q
  end.

Definition of_int (n : Z) : SpecFloat.spec_float :=
  SpecFloat.binary_normalize 53 1024 n 0 false.

Definition div : SpecFloat.spec_float -> SpecFloat.spec_float -> SpecFloat.spec_float :=
  SpecFloat.SFdiv 53 1024.

Definition mul : SpecFloat.spec_float -> SpecFloat.spec_float -> SpecFloat.spec_float :=
  SpecFloat.SFmul 53 1024.

Definition sub : SpecFloat.spec_float -> SpecFloat.spec_float -> SpecFloat.spec_float :=
  SpecFloat.SFsub 53 1024.

End Binary64.

(** * The parts of Qt and PIL the program uses *)

Module Qt.

(** [QPoint]: [QPoint()] is the point (0, 0), and [isNull()] holds exactly
    of the points whose two coordinates are 0. *)
Record QPoint : Type := mkQPoint { px : Z; py : Z }.

Definition QPoint_default : QPoint := mkQPoint 0 0.

Definition isNull (p : QPoint) : bool := (px p =? 0) && (py p =? 0).

(** [QRect] keeps its left, top, right and bottom coordinates;
    [QRect(topLeft, bottomRight)] stores the two points as they come. *)
Record QRect : Type := mkQRect { x1 : Z; y1 : Z; x2 : Z; y2 : Z }.

Definition QRect_of_points (topLeft bottomRight : QPoint) : QRect :=
  mkQRect (px topLeft) (py topLeft) (px bottomRight) (py bottomRight).

(** [QRect::normalized()] of Qt 6. *)
Definition normalized (r : QRect) : QRect :=
  let '(l, rt) := if x2 r <? x1 r then (x2 r + 1, x1 r - 1) else (x1 r, x2 r) in
  let '(t, b) := if y2 r <? y1 r then (y2 r + 1, y1 r - 1) else (y1 r, y2 r) in
  mkQRect l t rt b.

(** [Qt.MouseButton] and the bit each button has in [buttons()]. *)
Inductive MouseButton : Type := LeftButton | RightButton | MiddleButton.

Definition flag (b : MouseButton) : Z :=
  match b with
  | LeftButton => 1
  | RightButton => 2
  | MiddleButton => 4
  end.

(** [flags & button], as a Python truth value. *)
Definition has_button (flags : Z) (b : MouseButton) : bool :=
  negb (Z.land flags (flag b) =? 0).

Inductive EventType : Type := MouseButtonPress | MouseMove | MouseButtonRelease.

Record QMouseEvent : Type := mkQMouseEvent {
  type : EventType;
  pos : QPoint;
  button : option MouseButton;   (* the button that caused the event *)
  buttons : Z                    (* the buttons held when it was generated *)
}.

(** A page image as PIL hands it over: its size and its pixels. *)
Record PpmImageFile : Type := mkImage {
  im_width : Z;
  im_height : Z;
  im_pixels : list Z
}.

(** [QPixmap]: the image it was made from, and the rectangles painted on
    it since through a [QPainter] opened on the pixmap itself. *)
Record QPixmap : Type := mkQPixmap {
  pm_width : Z;
  pm_height : Z;
  pm_pixels : list Z;
  pm_painted : list QRect
}.

Definition fromImage (image : PpmImageFile) : QPixmap :=
  mkQPixmap (im_width image) (im_height image) (im_pixels image) [].

(** [QPainter(pixmap).drawRect(rect)]. *)
Definition pixmap_drawRect (pm : QPixmap) (rect : QRect) : QPixmap :=
  mkQPixmap (pm_width pm) (pm_height pm) (pm_pixels pm) (pm_painted pm ++ [rect]).

(** What a [QPainter] opened on a widget is asked to do. *)
Inductive PaintCmd : Type :=
| SetPen (color : string) (width : Z)
| DrawPixmap (x y w h : Z) (pm : QPixmap)
| DrawRect (rect : QRect).

(** The virtual method of [QWidget] that [QWidget::event] calls for a
    mouse event. *)
Definition handler_name (t : EventType) : string :=
  match t with
  | MouseButtonPress => "mousePressEvent"
  | MouseMove => "mouseMoveEvent"
  | MouseButtonRelease => "mouseReleaseEvent"
  end.

(** What the user does with the mouse over a widget. *)
Inductive MouseInput : Type :=
| Press (b : MouseButton) (p : QPoint)
| Move (p : QPoint)
| Release (b : MouseButton) (p : QPoint).

Definition input_pos (i : MouseInput) : QPoint :=
  match i with
  | Press _ p => p
  | Move p => p
  | Release _ p => p
  end.

(** The event Qt generates for an input, given the buttons held before
    it, and the buttons held after it.  [buttons()] includes the button
    of a press and excludes the button of a release. *)
Definition generate (held : Z) (i : MouseInput) : QMouseEvent * Z :=
  match i with
  | Press b p =>
      let held' := Z.lor held (flag b) in
      (mkQMouseEvent MouseButtonPress p (Some b) held', held')
  | Move p => (mkQMouseEvent MouseMove p None held, held)
  | Release b p =>
      let held' := Z.ldiff held (flag b) in
      (mkQMouseEvent MouseButtonRelease p (Some b) held', held')
  end.

End Qt.

Import Qt.

(** Python exceptions the program can meet. *)
Inductive exn : Type :=
| IndexError
| TypeError
| ZeroDivisionError
| OtherError (name : string).

(** [l[i]] on a Python list: a negative index counts from the end. *)
Definition list_getitem {A : Type} (l : list A) (i : Z) : exn + A :=
  let n := Z.of_nat (List.length l) in
  let j := if i <? 0 then i + n else i in
  if (0 <=? j) && (j <? n)
  then match nth_error l (Z.to_nat j) with
       | Some a => inr a
       | None => inl IndexError
       end
  else inl IndexError.

(** [str(n)] for an [int]. *)
Definition str (n : Z) : string := NilZero.string_of_int (Z.to_int n).

(** * class PdfToImage *)

Module PdfToImage.

Record t : Type := mk { images : list PpmImageFile }.

Section Init.

(** [pdf2image.convert_from_path]: the pages of the document at a path, or
    the exception the rasterizer raises. *)
Variable convert_from_path : string -> Z -> exn + list PpmImageFile.

Definition default_dpi : Z := 200.

Definition __init__ (path_to_pdf : string) (dpi : Z) : exn + t :=
  match convert_from_path path_to_pdf dpi with
  | inl e => inl e
  | inr pages => inr (mk pages)
  end.

End Init.

Definition __getitem__ (self : t) (item : Z) : exn + PpmImageFile :=
  list_getitem (images self) item.

Definition __len__ (self : t) : Z := Z.of_nat (List.length (images self)).

End PdfToImage.

(** * class Canvas(QLabel) *)

Module Canvas.

Import PyFloat.

(** The widget's size comes from the layout ([self.rect()], [self.width()],
    [self.height()]); the three attributes are those of the class. *)
Record t : Type := mk {
  width : Z;
  height : Z;
  begin : QPoint;
  destination : QPoint;
  pixmap : QPixmap
}.

Definition set_begin (self : t) (p : QPoint) : t :=
  mk (width self) (height self) p (destination self) (pixmap self).

Definition set_destination (self : t) (p : QPoint) : t :=
  mk (width self) (height self) (begin self) p (pixmap self).

Definition set_pixmap (self : t) (pm : QPixmap) : t :=
  mk (width self) (height self) (begin self) (destination self) pm.

(** [welcome] is what [QPixmap('welcome.png')] loads. *)
Definition __init__ (width height : Z) (welcome : QPixmap) : t :=
  mk width height QPoint_default QPoint_default welcome.

Definition reload (self : t) (image : PpmImageFile) : t :=
  set_pixmap self (fromImage image).

Definition calculate_size_of_page (self : t) (width_page height_page : Z)
  : exn + (Z * Z) :=
  let width_canvas := width self in
  let height_canvas := height self in
  if (width_page <=? width_canvas) && (height_page <=? height_canvas)
  then inr (width_page, height_page)
  else if height_page <? width_page
  then match truediv height_page width_page with
       | None => inl ZeroDivisionError
       | Some ratio =>
           inr (width_canvas, to_int (mul (of_int width_canvas) ratio))
       end
  else match truediv width_page height_page with
       | None => inl ZeroDivisionError
       | Some ratio =>
           inr (to_int (mul (of_int height_canvas) ratio), height_canvas)
       end.

Definition calculate_zero_coordinates (self : t) (width_image height_image : Z)
  : Z * Z :=
  let width_canvas := width self in
  let height_canvas := height self in
  if (width_image <=? width_canvas) && (height_image <=? height_canvas)
  then (Z.abs (to_int (sub (half (width self)) (half width_image))),
        Z.abs (to_int (sub (half (height self)) (half height_image))))
  else if width_image <? height_image
  then (Z.abs (to_int (sub (half (width self)) (half width_image))), 0)
  else (0, Z.abs (to_int (sub (half (height self)) (half height_image)))).

(** The commands [paintEvent] gives its painter, or the exception that
    ends it. *)
Definition paintEvent (self : t) : exn + list PaintCmd :=
  match calculate_size_of_page self (pm_width (pixmap self))
                               (pm_height (pixmap self)) with
  | inl e => inl e
  | inr (width_image, height_image) =>
      let '(x, y) := calculate_zero_coordinates self width_image height_image in
      inr ([SetPen "red" 3;
            DrawPixmap x y width_image height_image (pixmap self)]
           ++ (if negb (isNull (begin self)) && negb (isNull (destination self))
               then [DrawRect (normalized
                                 (QRect_of_points (begin self) (destination self)))]
               else []))
  end.

Definition mousePressEvent (self : t) (event : QMouseEvent) : t :=
  if has_button (buttons event) LeftButton
  then let self := set_begin self (pos event) in
       set_destination self (begin self)
  else self.

Definition mouseMoveEvent (self : t) (event : QMouseEvent) : t :=
  if has_button (buttons event) LeftButton
  then set_destination self (pos event)
  else self.

Definition mouseRleaseEvent (self : t) (event : QMouseEvent) : t :=
  if has_button (buttons event) LeftButton
  then let rect := QRect_of_points (begin self) (destination self) in
       let self := set_pixmap self (pixmap_drawRect (pixmap self) (normalized rect)) in
       let self := set_begin self QPoint_default in
       set_destination self QPoint_default
  else self.

(** The mouse handlers the class body defines, under the names it gives
    them. *)
Definition methods : list (string * (t -> QMouseEvent -> t)) :=
  [("mousePressEvent", mousePressEvent);
   ("mouseMoveEvent", mouseMoveEvent);
   ("mouseRleaseEvent", mouseRleaseEvent)]%string.

Fixpoint lookup (name : string) (table : list (string * (t -> QMouseEvent -> t)))
  : option (t -> QMouseEvent -> t) :=
  match table with
  | [] => None
  | (n, h) :: rest => if String.eqb n name then Some h else lookup name rest
  end.

(** [QWidget::event]: the handler is the method of that name when the class
    defines one; the handlers inherited from [QLabel] leave the canvas as
    it is. *)
Definition event (self : t) (e : QMouseEvent) : t :=
  match lookup (handler_name (type e)) methods with
  | Some handler => handler self e
  | None => self
  end.

(** The buttons held by the user, and the canvas. *)
Definition session : Type := (Z * t)%type.

Definition deliver (s : session) (i : MouseInput) : session :=
  let '(e, held) := generate (fst s) i in
  (held, event (snd s) e).

Definition run (s : session) (inputs : list MouseInput) : session :=
  fold_left deliver inputs s.

(** The rectangles [paintEvent] draws over the page image. *)
Definition overlay (painted : exn + list PaintCmd) : list QRect :=
  match painted with
  | inl _ => []
  | inr cmds =>
      flat_map (fun c => match c with DrawRect r => [r] | _ => [] end) cmds
  end.

End Canvas.

(** * class Window(QWidget) *)

Module Window.

Record t : Type := mk {
  pdf : option PdfToImage.t;
  filename : string;
  current_page : Z;
  label_pages : string;
  button_prev_page : bool;     (* isEnabled() *)
  button_next_page : bool;
  canvas : Canvas.t
}.

Definition set_pdf (w : t) (v : option PdfToImage.t) : t :=
  mk v (filename w) (current_page w) (label_pages w)
     (button_prev_page w) (button_next_page w) (canvas w).

Definition set_filename (w : t) (v : string) : t :=
  mk (pdf w) v (current_page w) (label_pages w)
     (button_prev_page w) (button_next_page w) (canvas w).

Definition set_current_page (w : t) (v : Z) : t :=
  mk (pdf w) (filename w) v (label_pages w)
     (button_prev_page w) (button_next_page w) (canvas w).

Definition set_label_pages (w : t) (v : string) : t :=
  mk (pdf w) (filename w) (current_page w) v
     (button_prev_page w) (button_next_page w) (canvas w).

Definition set_button_prev_page (w : t) (v : bool) : t :=
  mk (pdf w) (filename w) (current_page w) (label_pages w)
     v (button_next_page w) (canvas w).

Definition set_button_next_page (w : t) (v : bool) : t :=
  mk (pdf w) (filename w) (current_page w) (label_pages w)
     (button_prev_page w) v (canvas w).

Definition set_canvas (w : t) (v : Canvas.t) : t :=
  mk (pdf w) (filename w) (current_page w) (label_pages w)
     (button_prev_page w) (button_next_page w) v.

(** A method of the window: it runs on the object, returns or raises, and
    leaves the object as it was when it stopped. *)
Definition M (A : Type) : Type := t -> (exn + A) * t.

Definition ret {A : Type} (a : A) : M A := fun w => (inr a, w).

Definition raise {A : Type} (e : exn) : M A := fun w => (inl e, w).

Definition bind {A B : Type} (c : M A) (k : A -> M B) : M B :=
  fun w =>
    match c w with
    | (inl e, w') => (inl e, w')
    | (inr a, w') => k a w'
    end.

Definition get {A : Type} (field : t -> A) : M A := fun w => (inr (field w), w).

Definition set {A : Type} (setter : t -> A -> t) (v : A) : M unit :=
  fun w => (inr tt, setter w v).

Definition lift {A : Type} (r : exn + A) : M A :=
  match r with
  | inl e => raise e
  | inr a => ret a
  end.

Notation "x <- c ;; k" := (bind c (fun x => k))
  (at level 61, c at next level, right associativity).
Notation "c ;; k" := (bind c (fun _ => k))
  (at level 61, right associativity).

(** [self.pdf[page]] and [len(self.pdf)]; [None] supports neither. *)
Definition pdf_getitem (page : Z) : M PpmImageFile :=
  p <- get pdf ;;
  match p with
  | None => raise TypeError
  | Some doc => lift (PdfToImage.__getitem__ doc page)
  end.

Definition pdf_len : M Z :=
  p <- get pdf ;;
  match p with
  | None => raise TypeError
  | Some doc => ret (PdfToImage.__len__ doc)
  end.

Definition __init__ (canvas_width canvas_height : Z) (welcome : QPixmap) : t :=
  mk None "" 0 "0 / 0" false false
     (Canvas.__init__ canvas_width canvas_height welcome).

Section Methods.

Variable convert_from_path : string -> Z -> exn + list PpmImageFile.

Definition read_pdf (path : string) : M unit :=
  doc <- lift (PdfToImage.__init__ convert_from_path path PdfToImage.default_dpi) ;;
  set set_pdf (Some doc).

Definition display_page (page : Z) : M unit :=
  image <- pdf_getitem page ;;
  c <- get canvas ;;
  set set_canvas (Canvas.reload c image) ;;
  set set_button_next_page true ;;
  n <- get current_page ;;
  len <- pdf_len ;;
  set set_label_pages (str (n + 1) ++ " / " ++ str len)%string.

(** [chosen] is the path [QFileDialog.getOpenFileName] returns, empty when
    the dialog is cancelled. *)
Definition select_file (chosen : string) : M unit :=
  if String.eqb chosen "" then ret tt
  else
    set set_filename chosen ;;
    set set_current_page 0 ;;
    path <- get filename ;;
    read_pdf path ;;
    display_page 0.

Definition display_next_page : M unit :=
  n <- get current_page ;;
  set set_current_page (n + 1) ;;
  n <- get current_page ;;
  display_page n ;;
  set set_button_prev_page true ;;
  n <- get current_page ;;
  len <- pdf_len ;;
  set set_button_next_page (negb (n =? len - 1)).

Definition display_prev_page : M unit :=
  n <- get current_page ;;
  set set_current_page (n - 1) ;;
  n <- get current_page ;;
  display_page n ;;
  n <- get current_page ;;
  set set_button_prev_page (negb (n =? 0)) ;;
  set set_button_next_page true.

(** What the user can do with the controls.  A disabled [QPushButton] does
    not emit [clicked]. *)
Inductive Action : Type :=
| ChooseFile (chosen : string)
| ClickNext
| ClickPrev.

Definition handle (a : Action) : M unit :=
  match a with
  | ChooseFile chosen => select_file chosen
  | ClickNext =>
      enabled <- get button_next_page ;;
      if enabled then display_next_page else ret tt
  | ClickPrev =>
      enabled <- get button_prev_page ;;
      if enabled then display_prev_page else ret tt
  end.

(** The actions are handled one after the other until one raises. *)
Fixpoint handle_all (actions : list Action) : M unit :=
  match actions with
  | [] => ret tt
  | a :: rest => handle a ;; handle_all rest
  end.

End Methods.

End Window.

(** * A document folder and a window to evaluate the program on *)

Module Sample.

(** A4 pages at the default 200 dpi. *)
Definition portrait : PpmImageFile := mkImage 1654 2339 [].
Definition landscape : PpmImageFile := mkImage 2339 1654 [].

Definition convert_from_path (path : string) (dpi : Z)
  : exn + list PpmImageFile :=
  if String.eqb path "one.pdf" then inr [portrait]
  else if String.eqb path "three.pdf" then inr [portrait; landscape; portrait]
  else inl (OtherError "PDFPageCountError").

Definition welcome : QPixmap := mkQPixmap 640 480 [] [].

Definition canvas (width height : Z) : Canvas.t :=
  Canvas.__init__ width height welcome.

Definition window : Window.t := Window.__init__ 700 800 welcome.

Definition drag (p q : QPoint) : list MouseInput :=
  [Press LeftButton p; Move q; Release LeftButton q].

End Sample.

(** * What the window shows *)

Module Shown.

Import Window.

(** The canvas holds the page of index [current_page], untouched, and the
    label names it. *)
Definition current (w : t) (doc : PdfToImage.t) : Prop :=
  exists image : PpmImageFile,
    PdfToImage.__getitem__ doc (current_page w) = inr image
    /\ Canvas.pixmap (canvas w) = fromImage image
    /\ label_pages w
       = (str (current_page w + 1) ++ " / " ++ str (PdfToImage.__len__ doc))%string.

(** Each button is disabled on its boundary page and only there. *)
Definition boundaries (w : t) (doc : PdfToImage.t) : Prop :=
  button_prev_page w = negb (current_page w =? 0)
  /\ button_next_page w = negb (current_page w =? PdfToImage.__len__ doc - 1).

(** A click on one of the two navigation buttons. *)
Definition click (a : Action) : Prop :=
  match a with
  | ChooseFile _ => False
  | ClickNext | ClickPrev => True
  end.

End Shown.

(** * Facts about the rounding of floats *)

Module PyFloatFacts.
Import PyFloat.

(** [c * (a / b)] and [c / 2 - w / 2] computed by [PyFloat] and by the
    binary64 operations of [SpecFloat] agree, among them the product
    [49 * (1 / 49)], which is not 1. *)
Example scaling_agrees_with_binary64 :
  Forall (fun '(c, a, b) =>
            match truediv a b with
            | Some ratio =>
                Qeq_bool
                  (Binary64.to_Q
                     (Binary64.mul (Binary64.of_int c)
                        (Binary64.div (Binary64.of_int a) (Binary64.of_int b))))
                  (mul (of_int c) ratio) = true
            | None => False
            end)
         [(49, 1, 49); (1900, 1000, 1800); (700, 1654, 2339); (800, 1654, 2339);
          (3, 1, 3); (2147483647, 2147483646, 2147483647); (7, -5, 3)].
Proof. repeat constructor. Qed.

Example centring_agrees_with_binary64 :
  Forall (fun '(c, w) =>
            Qeq_bool
              (Binary64.to_Q
                 (Binary64.sub
                    (Binary64.div (Binary64.of_int c) (Binary64.of_int 2))
                    (Binary64.div (Binary64.of_int w) (Binary64.of_int 2))))
              (sub (half c) (half w)) = true)
         [(700, 641); (701, 640); (3, 10); (900, 1055); (0, 1)].
Proof. repeat constructor. Qed.

Example forty_nine_times_a_forty_ninth :
  to_int (mul (of_int 49) (round (1 # 49))) = 0.
Proof. vm_compute. reflexivity. Qed.

Lemma rne_nearest (n d : Z) :
  0 < d -> 2 * Z.abs (rne n d * d - n) <= d.
Proof.
  intros Hd. unfold rne.
  pose proof (Z.div_mod n d ltac:(lia)) as E.
  pose proof (Z.mod_pos_bound n d Hd) as B.
  set (q := n / d) in *. set (r := n mod d) in *.
  destruct (Z.compare_spec (2 * r) d); [destruct (Z.even q)| |]; nia.
Qed.

Lemma rne_exact (n d : Z) :
  0 < d -> (d | n) -> rne n d * d = n.
Proof.
  intros Hd [k ->]. unfold rne.
  rewrite Z.mod_mul, Z.div_mul by lia.
  destruct (Z.compare_spec (2 * 0) d); lia.
Qed.

Lemma scaled_den_pos (d e : Z) : 0 < d -> 0 < scaled_den d e.
Proof.
  intros Hd. unfold scaled_den. destruct (Z.leb_spec 0 e); [|assumption].
  apply Z.mul_pos_pos; [assumption|]. apply Z.pow_pos_nonneg; lia.
Qed.

Lemma scaled_succ (a d e : Z) :
  0 < a -> 0 < d ->
  (scaled_num a (e + 1) = scaled_num a e /\ scaled_den d (e + 1) = 2 * scaled_den d e)
  \/ (scaled_num a e = 2 * scaled_num a (e + 1) /\ scaled_den d (e + 1) = scaled_den d e).
Proof.
  intros Ha Hd. unfold scaled_num, scaled_den.
  destruct (Z.leb_spec 0 e), (Z.leb_spec 0 (e + 1)); try lia.
  - left. split; [reflexivity|]. rewrite Z.pow_add_r by lia.
    change (2 ^ 1) with 2. ring.
  - right. assert (e = -1) as -> by lia.
    change (2 ^ (- -1)) with 2. change (2 ^ (-1 + 1)) with 1. lia.
  - right. split; [|reflexivity].
    replace (- e) with (- (e + 1) + 1) by lia. rewrite Z.pow_add_r by lia.
    change (2 ^ 1) with 2. ring.
Qed.

Lemma ulp_exponent_lower (a d : Z) :
  0 < a -> 0 < d ->
  2 ^ (prec - 1) * scaled_den d (ulp_exponent a d) <= scaled_num a (ulp_exponent a d).
Proof.
  intros Ha Hd. unfold ulp_exponent.
  set (s := Z.log2 a - Z.log2 d - prec).
  destruct (Z.leb_spec (2 ^ prec * scaled_den d s) (scaled_num a s)) as [H|_].
  - change (2 ^ prec) with (2 * 2 ^ (prec - 1)) in H.
    destruct (scaled_succ a d s Ha Hd) as [[-> ->]|[E ->]]; lia.
  - pose proof (Z.log2_spec a Ha) as [La _].
    pose proof (Z.log2_spec d Hd) as [_ Ld].
    pose proof (Z.log2_nonneg a). pose proof (Z.log2_nonneg d).
    unfold scaled_num, scaled_den. destruct (Z.leb_spec 0 s).
    + assert (E : Z.log2 a = (prec - 1) + (Z.succ (Z.log2 d) + s)) by (unfold s, prec; lia).
      rewrite E in La. rewrite !Z.pow_add_r in La by (unfold prec; lia).
      assert (0 < 2 ^ s) by (apply Z.pow_pos_nonneg; lia).
      assert (0 < 2 ^ (prec - 1)) by reflexivity.
      nia.
    + assert (E : Z.log2 a + - s = (prec - 1) + Z.succ (Z.log2 d)) by (unfold s, prec; lia).
      assert (0 < 2 ^ (- s)) by (apply Z.pow_pos_nonneg; lia).
      assert (0 < 2 ^ (prec - 1)) by reflexivity.
      assert (E' : 2 ^ Z.log2 a * 2 ^ (- s) = 2 ^ (prec - 1) * 2 ^ Z.succ (Z.log2 d)).
      { rewrite <- !Z.pow_add_r by (unfold prec; lia). now rewrite E. }
      nia.
Qed.

Lemma inject_Z_pos (z : Z) : 0 < z -> (0 < inject_Z z)%Q.
Proof. intros H. unfold Qlt. simpl. lia. Qed.

Lemma inject_Z_nonneg (z : Z) : 0 <= z -> (0 <= inject_Z z)%Q.
Proof. intros H. unfold Qle. simpl. lia. Qed.

Lemma pow2_pos (e : Z) : (0 < 2 ^ e)%Q.
Proof. apply Qpower_0_lt. reflexivity. Qed.

Lemma scaled_value (a d e : Z) :
  0 < d ->
  (inject_Z (scaled_num a e) / inject_Z (scaled_den d e) * 2 ^ e
   == inject_Z a / inject_Z d)%Q.
Proof.
  intros Hd. unfold scaled_num, scaled_den.
  assert (Hdq : (0 < inject_Z d)%Q) by (apply inject_Z_pos; exact Hd).
  pose proof (pow2_pos e) as Hp.
  destruct (Z.leb_spec 0 e).
  - rewrite inject_Z_mult, (Zpower_Qpower 2 e) by assumption.
    change (inject_Z 2) with 2%Q. field. split; lra.
  - pose proof (pow2_pos (- e)) as Hn.
    rewrite inject_Z_mult, (Zpower_Qpower 2 (- e)) by lia.
    change (inject_Z 2) with 2%Q.
    assert (E : (2 ^ e == / 2 ^ (- e))%Q).
    { rewrite <- Qpower_opp. now rewrite Z.opp_involutive. }
    rewrite E. field. split; lra.
Qed.

Lemma round_pos_error (a d : Z) :
  0 < a -> 0 < d ->
  (Qabs (round_pos a d - inject_Z a / inject_Z d)
   <= (1 # 2 ^ 53) * (inject_Z a / inject_Z d))%Q.
Proof.
  intros Ha Hd. unfold round_pos.
  pose proof (ulp_exponent_lower a d Ha Hd) as Hlow.
  set (e := ulp_exponent a d) in *.
  pose proof (scaled_den_pos d e Hd) as HD.
  pose proof (rne_nearest (scaled_num a e) (scaled_den d e) HD) as Hm.
  rewrite <- (scaled_value a d e Hd).
  set (N := scaled_num a e) in *. set (D := scaled_den d e) in *.
  set (m := rne N D) in *.
  pose proof (pow2_pos e) as HP. set (P := (2 ^ e)%Q) in *.
  assert (HDq : (0 < inject_Z D)%Q) by (apply inject_Z_pos; exact HD).
  assert (Hx : (inject_Z N / inject_Z D * inject_Z D == inject_Z N)%Q)
    by (field; lra).
  set (x := (inject_Z N / inject_Z D)%Q) in *.
  assert (Hlo : (inject_Z (2 ^ (prec - 1)) * inject_Z D <= inject_Z N)%Q).
  { rewrite <- inject_Z_mult, <- Zle_Qle. exact Hlow. }
  assert (Hup : (2 * (inject_Z m * inject_Z D - inject_Z N) <= inject_Z D)%Q).
  { change 2%Q with (inject_Z 2). unfold Qminus.
    rewrite <- inject_Z_mult, <- inject_Z_opp, <- inject_Z_plus, <- inject_Z_mult, <- Zle_Qle. lia. }
  assert (Hdn : (2 * (inject_Z N - inject_Z m * inject_Z D) <= inject_Z D)%Q).
  { change 2%Q with (inject_Z 2). unfold Qminus.
    rewrite <- inject_Z_mult, <- inject_Z_opp, <- inject_Z_plus, <- inject_Z_mult, <- Zle_Qle. lia. }
  change (inject_Z (2 ^ (prec - 1))) with (4503599627370496%Q) in Hlo.
  rewrite <- Hx in Hlo, Hup, Hdn.
  assert (X1 : (4503599627370496 <= x)%Q) by nra.
  assert (X2 : (inject_Z m - x <= 1 # 2)%Q) by nra.
  assert (X3 : (x - inject_Z m <= 1 # 2)%Q) by nra.
  apply Qabs_Qle_condition.
  change (1 # 2 ^ 53)%Q with (1 # 9007199254740992)%Q.
  split; nra.
Qed.

(** Every operation is within a relative error of [2 ^ -53] of its exact
    result. *)
Lemma round_error (q : Q) :
  (Qabs (round q - q) <= (1 # 2 ^ 53) * Qabs q)%Q.
Proof.
  unfold round. pose proof (Qred_correct q) as E.
  destruct (Qred q) as [n d]. simpl Qnum. simpl Qden.
  rewrite <- E. rewrite (Qmake_Qdiv n d). destruct n as [|a|a].
  - unfold Qdiv. rewrite Qmult_0_l. vm_compute. discriminate.
  - pose proof (round_pos_error (Zpos a) (Zpos d) eq_refl eq_refl) as H.
    rewrite (Qabs_pos (inject_Z (Zpos a) / inject_Z (Zpos d))); [exact H|].
    apply Qle_shift_div_l; [reflexivity|]. rewrite Qmult_0_l. discriminate.
  - pose proof (round_pos_error (Zpos a) (Zpos d) eq_refl eq_refl) as H.
    assert (N : (inject_Z (Zneg a) / inject_Z (Zpos d)
                 == - (inject_Z (Zpos a) / inject_Z (Zpos d)))%Q).
    { change (Zneg a) with (- Zpos a). rewrite inject_Z_opp. field. discriminate. }
    rewrite N, Qabs_opp.
    rewrite (Qabs_pos (inject_Z (Zpos a) / inject_Z (Zpos d))).
    + rewrite <- Qabs_opp.
      assert (S : (- (- round_pos (Zpos a) (Zpos d) - - (inject_Z (Zpos a) / inject_Z (Zpos d)))
                   == round_pos (Zpos a) (Zpos d) - inject_Z (Zpos a) / inject_Z (Zpos d))%Q)
        by ring.
      rewrite S. exact H.
    + apply Qle_shift_div_l; [reflexivity|]. rewrite Qmult_0_l. discriminate.
Qed.

Lemma round_proper (q q' : Q) : (q == q')%Q -> round q = round q'.
Proof. intros H. unfold round. now rewrite (Qred_complete q q' H). Qed.

Lemma ulp_exponent_pow2 (a j : Z) :
  0 < a < 2 ^ prec -> 0 <= j -> ulp_exponent a (2 ^ j) <= - j.
Proof.
  intros [Ha Hb] Hj. unfold ulp_exponent.
  rewrite Z.log2_pow2 by assumption.
  assert (Z.log2 a < prec) by (apply Z.log2_lt_pow2; assumption).
  destruct (_ <=? _); lia.
Qed.

Lemma round_pos_exact (a j : Z) :
  0 < a < 2 ^ prec -> 0 <= j ->
  (round_pos a (2 ^ j) == inject_Z a / inject_Z (2 ^ j))%Q.
Proof.
  intros Ha Hj. unfold round_pos.
  pose proof (ulp_exponent_pow2 a j Ha Hj) as He.
  assert (Hd : 0 < 2 ^ j) by (apply Z.pow_pos_nonneg; lia).
  set (e := ulp_exponent a (2 ^ j)) in *.
  rewrite <- (scaled_value a (2 ^ j) e Hd).
  pose proof (scaled_den_pos (2 ^ j) e Hd) as HD.
  assert (Hdiv : (scaled_den (2 ^ j) e | scaled_num a e)).
  { unfold scaled_den, scaled_num. destruct (Z.leb_spec 0 e).
    - assert (e = 0) as -> by lia. assert (j = 0) as -> by lia.
      exists a. change (2 ^ 0) with 1. ring.
    - exists (a * 2 ^ (- e - j)).
      replace (- e) with ((- e - j) + j) at 1 by lia.
      rewrite Z.pow_add_r by lia. ring. }
  pose proof (rne_exact _ _ HD Hdiv) as Hm.
  set (N := scaled_num a e) in *. set (D := scaled_den (2 ^ j) e) in *.
  rewrite <- Hm at 2. rewrite inject_Z_mult.
  pose proof (inject_Z_pos D HD). field. lra.
Qed.

(** Integers and halves of integers below [2 ^ 53] are floats: rounding
    leaves them as they are. *)
Lemma round_dyadic_exact (n : Z) (d : positive) (j : Z) :
  Z.gcd n (Zpos d) = 1 -> Zpos d = 2 ^ j -> 0 <= j -> Z.abs n < 2 ^ prec ->
  (round (n # d) == n # d)%Q.
Proof.
  intros Hg Hd Hj Hn. unfold round.
  rewrite (Qcanon.Qred_identity (n # d)) by exact Hg. simpl Qnum. simpl Qden.
  rewrite (Qmake_Qdiv n d). destruct n as [|a|a].
  - unfold Qdiv. now rewrite Qmult_0_l.
  - rewrite Hd. apply round_pos_exact; lia.
  - rewrite Hd, round_pos_exact by lia.
    change (Zneg a) with (- Zpos a). rewrite inject_Z_opp.
    pose proof (inject_Z_pos (2 ^ j) ltac:(apply Z.pow_pos_nonneg; lia)).
    field. lra.
Qed.

Lemma round_int_exact (n : Z) :
  Z.abs n < 2 ^ prec -> (round (inject_Z n) == inject_Z n)%Q.
Proof.
  intros H. apply (round_dyadic_exact n 1 0); [apply Z.gcd_1_r|reflexivity|lia|exact H].
Qed.

Lemma round_half_exact (n : Z) :
  Z.abs n < 2 ^ prec -> (round (inject_Z n / 2) == inject_Z n / 2)%Q.
Proof.
  intros H. destruct (Z.even n) eqn:Ev.
  - apply Z.even_spec in Ev. destruct Ev as [k ->].
    assert (E : (inject_Z (2 * k) / 2 == inject_Z k)%Q)
      by (rewrite inject_Z_mult; change (inject_Z 2) with 2%Q; field).
    rewrite (round_proper _ _ E), E. apply round_int_exact. lia.
  - assert (Od : Z.odd n = true) by (rewrite <- Z.negb_even, Ev; reflexivity).
    apply Z.odd_spec in Od. destruct Od as [k ->].
    assert (E : (inject_Z (2 * k + 1) / 2 == (2 * k + 1) # 2)%Q)
      by (rewrite (Qmake_Qdiv (2 * k + 1) 2); reflexivity).
    rewrite (round_proper _ _ E), E.
    apply (round_dyadic_exact (2 * k + 1) 2 1); [|reflexivity|lia|exact H].
    rewrite Z.gcd_comm, Z.add_comm, (Z.mul_comm 2 k), Z.gcd_add_mult_diag_r.
    reflexivity.
Qed.

Lemma to_int_proper (q q' : Q) : (q == q')%Q -> to_int q = to_int q'.
Proof.
  intros H. unfold to_int.
  rewrite (Qfloor_comp _ _ H), (Qceiling_comp _ _ H).
  destruct (Qle_bool 0 q) eqn:L, (Qle_bool 0 q') eqn:L'; try reflexivity.
  - apply Qle_bool_iff in L. rewrite H in L. apply Qle_bool_iff in L. congruence.
  - apply Qle_bool_iff in L'. rewrite <- H in L'. apply Qle_bool_iff in L'. congruence.
Qed.

Lemma to_int_nonneg (q : Q) : (0 <= q)%Q -> to_int q = Qfloor q.
Proof.
  intros H. unfold to_int. apply Qle_bool_iff in H. now rewrite H.
Qed.

Lemma to_int_half (n : Z) : Z.abs (to_int (inject_Z n / 2)%Q) = Z.abs n / 2.
Proof.
  assert (E : (inject_Z n / 2 == n # 2)%Q) by (rewrite (Qmake_Qdiv n 2); reflexivity).
  rewrite (to_int_proper _ _ E). unfold to_int, Qle_bool, Qceiling, Qfloor.
  simpl Qnum. simpl Qden. simpl Qopp.
  destruct (Z.leb_spec (0 * 2) (n * 1)).
  - rewrite Z.abs_eq by (apply Z.div_pos; lia). now rewrite (Z.abs_eq n) by lia.
  - rewrite Z.abs_opp, (Z.abs_neq n) by lia.
    apply Z.abs_eq. apply Z.div_pos; lia.
Qed.

(** [abs(int(c / 2 - w / 2))] is half the distance of [c] and [w], rounded
    down. *)
Lemma centre_offset (c w : Z) :
  Z.abs c < 2 ^ 31 -> Z.abs w < 2 ^ 31 ->
  Z.abs (to_int (sub (half c) (half w))) = Z.abs (c - w) / 2.
Proof.
  intros Hc Hw. unfold sub, half.
  assert (B : 2 * 2 ^ 31 < 2 ^ prec) by reflexivity.
  pose proof (round_half_exact c ltac:(lia)) as Ec.
  pose proof (round_half_exact w ltac:(lia)) as Ew.
  assert (E : (round (inject_Z c / 2) - round (inject_Z w / 2)
               == inject_Z (c - w) / 2)%Q).
  { rewrite Ec, Ew. unfold Z.sub. rewrite inject_Z_plus, inject_Z_opp. field. }
  rewrite (round_proper _ _ E).
  rewrite (to_int_proper _ _ (round_half_exact (c - w) ltac:(lia))).
  apply to_int_half.
Qed.

Lemma round_error_nonneg (q : Q) :
  (0 <= q)%Q ->
  (q - (1 # 2 ^ 53) * q <= round q <= q + (1 # 2 ^ 53) * q)%Q.
Proof.
  intros Hq. pose proof (round_error q) as H.
  rewrite (Qabs_pos q Hq) in H. apply Qabs_Qle_condition in H.
  destruct H as [H1 H2]. split; lra.
Qed.

(** [int(c * (a / b))] for sizes [a <= b] and [c <= b]: the product of two
    roundings stays within one pixel of the exact [c * a / b]. *)
Lemma scaled_side (c a b : Z) :
  0 <= a <= b -> 0 < b < 2 ^ 31 -> 0 <= c <= b ->
  let s := to_int (mul (of_int c) (round (inject_Z a / inject_Z b))) in
  0 <= s <= a /\ c * a / b - 1 <= s <= c * a / b + 1.
Proof.
  intros Ha Hb Hc. cbv zeta.
  assert (Hbq : (0 < inject_Z b)%Q) by (apply inject_Z_pos; lia).
  assert (Haq : (0 <= inject_Z a)%Q) by (apply inject_Z_nonneg; lia).
  assert (Hcq : (0 <= inject_Z c)%Q) by (apply inject_Z_nonneg; lia).
  assert (Hab : (inject_Z a <= inject_Z b)%Q) by (rewrite <- Zle_Qle; lia).
  assert (Hcb : (inject_Z c <= inject_Z b)%Q) by (rewrite <- Zle_Qle; lia).
  assert (Ha31 : (inject_Z a < 2147483648)%Q).
  { change 2147483648%Q with (inject_Z (2 ^ 31)). rewrite <- Zlt_Qlt. lia. }
  assert (Hr : (inject_Z a / inject_Z b * inject_Z b == inject_Z a)%Q)
    by (field; lra).
  set (r := (inject_Z a / inject_Z b)%Q) in *.
  assert (Hr0 : (0 <= r)%Q) by nra.
  pose proof (round_error_nonneg r Hr0) as [R1 R2].
  change (1 # 2 ^ 53)%Q with (1 # 9007199254740992)%Q in R1, R2.
  set (rho := round r) in *.
  assert (Ec : (of_int c * rho == inject_Z c * rho)%Q).
  { unfold of_int. rewrite (round_int_exact c); [reflexivity|].
    assert (2 ^ 31 < 2 ^ prec) by reflexivity. lia. }
  unfold mul. rewrite (round_proper _ _ Ec).
  assert (Ht0 : (0 <= inject_Z c * rho)%Q) by nra.
  pose proof (round_error_nonneg _ Ht0) as [Y1 Y2].
  change (1 # 2 ^ 53)%Q with (1 # 9007199254740992)%Q in Y1, Y2.
  set (y := round (inject_Z c * rho)) in *.
  set (z := (inject_Z c * r)%Q).
  assert (Hz : (z * inject_Z b == inject_Z c * inject_Z a)%Q)
    by (unfold z; rewrite <- Hr; ring).
  assert (Hz0 : (0 <= z)%Q) by (unfold z; nra).
  assert (Hza : (z <= inject_Z a)%Q) by nra.
  assert (T1 : (inject_Z c * rho <= z + (1 # 9007199254740992) * z)%Q)
    by (unfold z; nra).
  assert (T2 : (z - (1 # 9007199254740992) * z <= inject_Z c * rho)%Q)
    by (unfold z; nra).
  assert (Yhi : (y < z + 1)%Q) by lra.
  assert (Ylo : (z - 1 < y)%Q) by lra.
  assert (Y0 : (0 <= y)%Q) by lra.
  rewrite (to_int_nonneg y Y0).
  pose proof (Qfloor_le y) as F1. pose proof (Qlt_floor y) as F2.
  rewrite inject_Z_plus in F2. change (inject_Z 1) with 1%Q in F2.
  set (s := Qfloor y) in *.
  assert (S0 : 0 <= s).
  { rewrite <- (Qfloor_Z 0). apply Qfloor_resp_le. exact Y0. }
  assert (Sa : s < a + 1).
  { rewrite Zlt_Qlt, inject_Z_plus. change (inject_Z 1) with 1%Q. lra. }
  assert (Shi : s * b < c * a + b).
  { rewrite Zlt_Qlt, inject_Z_plus, !inject_Z_mult. nra. }
  assert (Slo : c * a - b < (s + 1) * b).
  { rewrite Zlt_Qlt. unfold Z.sub.
    rewrite inject_Z_plus, inject_Z_opp, !inject_Z_mult, inject_Z_plus.
    change (inject_Z 1) with 1%Q. nra. }
  pose proof (Z.div_mod (c * a) b ltac:(lia)) as D.
  pose proof (Z.mod_pos_bound (c * a) b ltac:(lia)) as M.
  set (E := c * a / b) in *. set (m := (c * a) mod b) in *.
  split; [lia|]. split; nia.
Qed.
End PyFloatFacts.

(** * Facts about the canvas *)

Module CanvasFacts.
Import Canvas.

Lemma has_left_testbit (flags : Z) :
  has_button flags LeftButton = Z.testbit flags 0.
Proof.
  unfold has_button, flag. change 1 with (Z.ones 1).
  rewrite Z.land_ones by lia. change (2 ^ 1) with 2.
  rewrite <- Z.bit0_mod. now destruct (Z.testbit flags 0).
Qed.

Lemma has_left_press (held : Z) (b : MouseButton) :
  has_button (Z.lor held (flag b)) LeftButton
  = has_button held LeftButton || match b with LeftButton => true | _ => false end.
Proof.
  rewrite !has_left_testbit, Z.lor_spec. now destruct b.
Qed.

Lemma has_left_release (held : Z) (b : MouseButton) :
  has_button (Z.ldiff held (flag b)) LeftButton = true ->
  has_button held LeftButton = true.
Proof.
  rewrite !has_left_testbit, Z.ldiff_spec by lia.
  now destruct (Z.testbit held 0).
Qed.

Lemma event_press (c : t) (e : QMouseEvent) :
  type e = MouseButtonPress -> event c e = mousePressEvent c e.
Proof. intros H. unfold event. now rewrite H. Qed.

Lemma event_move (c : t) (e : QMouseEvent) :
  type e = MouseMove -> event c e = mouseMoveEvent c e.
Proof. intros H. unfold event. now rewrite H. Qed.

(** No method of the class is called [mouseReleaseEvent]: a release reaches
    the handler inherited from [QLabel]. *)
Lemma event_release (c : t) (e : QMouseEvent) :
  type e = MouseButtonRelease -> event c e = c.
Proof. intros H. unfold event. now rewrite H. Qed.

Lemma deliver_press (held : Z) (c : t) (b : MouseButton) (p : QPoint) :
  deliver (held, c) (Press b p)
  = (Z.lor held (flag b),
     if has_button (Z.lor held (flag b)) LeftButton
     then mk (width c) (height c) p p (pixmap c) else c).
Proof. reflexivity. Qed.

Lemma deliver_move (held : Z) (c : t) (p : QPoint) :
  deliver (held, c) (Move p)
  = (held, if has_button held LeftButton then set_destination c p else c).
Proof. reflexivity. Qed.

Lemma deliver_release (held : Z) (c : t) (b : MouseButton) (p : QPoint) :
  deliver (held, c) (Release b p) = (Z.ldiff held (flag b), c).
Proof. reflexivity. Qed.

End CanvasFacts.

(** * The fit and the centring *)

Module Geometry.
Import Canvas PyFloat PyFloatFacts.

(** C5: an image that fits the canvas on both axes is displayed at its
    natural size. *)
Theorem calculate_size_of_page_fits (self : t) (w h : Z) :
  w <= width self -> h <= height self ->
  calculate_size_of_page self w h = inr (w, h).
Proof.
  intros Hw Hh. unfold calculate_size_of_page.
  apply Z.leb_le in Hw, Hh. now rewrite Hw, Hh.
Qed.

Lemma calculate_size_of_page_fits_witness :
  640 <= width (Sample.canvas 700 800) /\
  480 <= height (Sample.canvas 700 800) /\
  calculate_size_of_page (Sample.canvas 700 800) 640 480 = inr (640, 480).
Proof.
  split; [simpl; lia|]. split; [simpl; lia|].
  apply calculate_size_of_page_fits; simpl; lia.
Defined.

(** C3, on the program: a 1800 x 1000 page on a 1900 x 900 canvas overflows
    the canvas in height only; it is displayed 1900 x 1055, larger than its
    natural size and higher than the canvas. *)
Theorem calculate_size_of_page_upscales :
  calculate_size_of_page (Sample.canvas 1900 900) 1800 1000 = inr (1900, 1055)
  /\ 1800 < 1900 /\ 1000 < 1055 /\ height (Sample.canvas 1900 900) < 1055.
Proof. vm_compute. repeat split. Qed.

(** X4, where the fit works: the displayed size is a scale-down of the
    natural size, with the aspect ratio kept to the pixel, whenever the
    image fits the canvas or its longer side is at least as long as the
    canvas on that axis. *)
Lemma calculate_size_of_page_scale_down (self : t) (w h : Z) :
  0 <= w < 2 ^ 31 -> 0 <= h < 2 ^ 31 ->
  0 <= width self -> 0 <= height self ->
  (w <= width self /\ h <= height self)
  \/ (h < w /\ width self <= w)
  \/ (w <= h /\ height self <= h) ->
  exists W H : Z,
    calculate_size_of_page self w h = inr (W, H)
    /\ 0 <= W <= w /\ 0 <= H <= h
    /\ (h < w -> W * h / w - 1 <= H <= W * h / w + 1)
    /\ (w <= h -> H * w / h - 1 <= W <= H * w / h + 1).
Proof.
  intros Hw Hh Hcw Hch Hside. unfold calculate_size_of_page, truediv.
  destruct ((w <=? width self) && (h <=? height self)) eqn:Fit.
  - exists w, h. split; [reflexivity|]. split; [lia|]. split; [lia|].
    split; intros L.
    + rewrite Z.mul_comm, Z.div_mul by lia. lia.
    + destruct (Z.eq_dec h 0) as [->|Hn].
      * assert (w = 0) as -> by lia. simpl. lia.
      * rewrite Z.mul_comm, Z.div_mul by lia. lia.
  - apply andb_false_iff in Fit.
    assert (Over : width self < w \/ height self < h)
      by (destruct Fit as [F|F]; apply Z.leb_gt in F; lia).
    destruct (Z.ltb_spec h w) as [L|L].
    + assert (Hn : (w =? 0) = false) by (apply Z.eqb_neq; lia). rewrite Hn.
      destruct (scaled_side (width self) h w) as [B1 B2]; [lia..|].
      eexists _, _. split; [reflexivity|]. repeat split; lia.
    + assert (Hn : (h =? 0) = false) by (apply Z.eqb_neq; lia). rewrite Hn.
      destruct (scaled_side (height self) w h) as [B1 B2]; [lia..|].
      eexists _, _. split; [reflexivity|]. repeat split; lia.
Qed.

Lemma calculate_size_of_page_scale_down_witness :
  0 <= 2339 < 2 ^ 31 /\ 0 <= 1654 < 2 ^ 31 /\
  0 <= width (Sample.canvas 700 800) /\ 0 <= height (Sample.canvas 700 800) /\
  ((2339 <= width (Sample.canvas 700 800) /\ 1654 <= height (Sample.canvas 700 800))
   \/ (1654 < 2339 /\ width (Sample.canvas 700 800) <= 2339)
   \/ (2339 <= 1654 /\ height (Sample.canvas 700 800) <= 1654)) /\
  exists W H : Z,
    calculate_size_of_page (Sample.canvas 700 800) 2339 1654 = inr (W, H)
    /\ 0 <= W <= 2339 /\ 0 <= H <= 1654
    /\ (1654 < 2339 -> W * 1654 / 2339 - 1 <= H <= W * 1654 / 2339 + 1)
    /\ (2339 <= 1654 -> H * 2339 / 1654 - 1 <= W <= H * 2339 / 1654 + 1).
Proof.
  assert (A : 0 <= 2339 < 2 ^ 31) by lia.
  assert (B : 0 <= 1654 < 2 ^ 31) by lia.
  assert (C : 0 <= width (Sample.canvas 700 800)) by (simpl; lia).
  assert (D : 0 <= height (Sample.canvas 700 800)) by (simpl; lia).
  assert (E : (2339 <= width (Sample.canvas 700 800)
               /\ 1654 <= height (Sample.canvas 700 800))
              \/ (1654 < 2339 /\ width (Sample.canvas 700 800) <= 2339)
              \/ (2339 <= 1654 /\ height (Sample.canvas 700 800) <= 1654))
    by (right; left; simpl; lia).
  exact (conj A (conj B (conj C (conj D (conj E
    (calculate_size_of_page_scale_down (Sample.canvas 700 800) 2339 1654 A B C D E)))))).
Defined.

(** C6, as stated, fails.  A 1800 x 1000 image on a 1900 x 900 canvas is
    narrower than the canvas and taller, and is offset on y only.  So is
    the size [paintEvent] computes for this page, 1900 x 1055, which fits
    the canvas in width and not in height. *)
Lemma calculate_zero_coordinates_wide_not_centred :
  (1800 < width (Sample.canvas 1900 900) /\ height (Sample.canvas 1900 900) < 1000
   /\ calculate_zero_coordinates (Sample.canvas 1900 900) 1800 1000 = (0, 50)
   /\ (0, 50) <> (Z.abs (1900 - 1800) / 2, 0))
  /\ (calculate_size_of_page (Sample.canvas 1900 900) 1800 1000 = inr (1900, 1055)
      /\ calculate_zero_coordinates (Sample.canvas 1900 900) 1900 1055 = (0, 77)
      /\ (0, 77) <> (Z.abs (1900 - 1900) / 2, 0)).
Proof.
  split.
  - split; [simpl; lia|]. split; [simpl; lia|].
    split; [vm_compute; reflexivity|discriminate].
  - split; [vm_compute; reflexivity|].
    split; [vm_compute; reflexivity|discriminate].
Qed.

(** C6, amended: the offset on an axis is half the distance between the
    canvas size and the image size, rounded down; it is applied on both
    axes when the image fits the canvas, which centres the image to the
    pixel; otherwise on x only when the image is narrower than it is high,
    and on y only when it is not. *)
Theorem calculate_zero_coordinates_centres (self : t) (w h : Z) :
  0 <= w < 2 ^ 31 -> 0 <= h < 2 ^ 31 ->
  0 <= width self < 2 ^ 31 -> 0 <= height self < 2 ^ 31 ->
  let x := Z.abs (width self - w) / 2 in
  let y := Z.abs (height self - h) / 2 in
  (w <= width self /\ h <= height self ->
   calculate_zero_coordinates self w h = (x, y)
   /\ Z.abs (2 * x + w - width self) <= 1
   /\ Z.abs (2 * y + h - height self) <= 1)
  /\ (~ (w <= width self /\ h <= height self) -> w < h ->
      calculate_zero_coordinates self w h = (x, 0))
  /\ (~ (w <= width self /\ h <= height self) -> h <= w ->
      calculate_zero_coordinates self w h = (0, y)).
Proof.
  intros Hw Hh Hcw Hch. unfold calculate_zero_coordinates.
  rewrite (centre_offset (width self) w), (centre_offset (height self) h) by lia.
  cbv zeta.
  set (x := Z.abs (width self - w) / 2). set (y := Z.abs (height self - h) / 2).
  destruct ((w <=? width self) && (h <=? height self)) eqn:Fit.
  - apply andb_true_iff in Fit. destruct Fit as [F1 F2].
    apply Z.leb_le in F1, F2.
    split; [|split; intros N; exfalso; apply N; split; assumption].
    intros _. split; [reflexivity|].
    unfold x, y.
    rewrite (Z.abs_eq (width self - w)), (Z.abs_eq (height self - h)) by lia.
    pose proof (Z.div_mod (width self - w) 2 ltac:(lia)).
    pose proof (Z.mod_pos_bound (width self - w) 2 ltac:(lia)).
    pose proof (Z.div_mod (height self - h) 2 ltac:(lia)).
    pose proof (Z.mod_pos_bound (height self - h) 2 ltac:(lia)).
    lia.
  - apply andb_false_iff in Fit.
    split; [intros [F1 F2]; apply Z.leb_le in F1, F2;
            destruct Fit; congruence|].
    split; intros _ L.
    + apply Z.ltb_lt in L. now rewrite L.
    + apply Z.ltb_ge in L. now rewrite L.
Qed.

Lemma calculate_zero_coordinates_centres_witness :
  0 <= 640 < 2 ^ 31 /\ 0 <= 480 < 2 ^ 31 /\
  0 <= width (Sample.canvas 700 800) < 2 ^ 31 /\
  0 <= height (Sample.canvas 700 800) < 2 ^ 31 /\
  640 <= width (Sample.canvas 700 800) /\ 480 <= height (Sample.canvas 700 800) /\
  calculate_zero_coordinates (Sample.canvas 700 800) 640 480 = (30, 160).
Proof.
  assert (A : 0 <= 640 < 2 ^ 31) by lia.
  assert (B : 0 <= 480 < 2 ^ 31) by lia.
  assert (C : 0 <= width (Sample.canvas 700 800) < 2 ^ 31) by (simpl; lia).
  assert (D : 0 <= height (Sample.canvas 700 800) < 2 ^ 31) by (simpl; lia).
  assert (F1 : 640 <= width (Sample.canvas 700 800)) by (simpl; lia).
  assert (F2 : 480 <= height (Sample.canvas 700 800)) by (simpl; lia).
  repeat (split; [assumption|]).
  exact (proj1 (proj1 (calculate_zero_coordinates_centres
                         (Sample.canvas 700 800) 640 480 A B C D)
                      (conj F1 F2))).
Defined.

End Geometry.

(** * The drag *)

Module Drag.
Import Canvas CanvasFacts.

(** What [mouseRleaseEvent] does when it is called with the left button
    among [buttons()]: it paints the normalized rectangle into the pixmap
    and resets the two points. *)
Lemma mouseRleaseEvent_commits (c : t) (e : QMouseEvent) :
  has_button (buttons e) LeftButton = true ->
  mouseRleaseEvent c e
  = mk (width c) (height c) QPoint_default QPoint_default
       (pixmap_drawRect (pixmap c)
          (normalized (QRect_of_points (begin c) (destination c)))).
Proof. intros H. unfold mouseRleaseEvent. now rewrite H. Qed.

(** With the left button among [buttons()] the rectangle painted depends on
    the direction of the drag: [QRect::normalized()] of Qt 6 keeps the edges
    of a rectangle given right to left, not its corner pixels. *)
Example mouseRleaseEvent_direction :
  let released := mkQMouseEvent MouseButtonRelease (mkQPoint 0 0) None
                                (flag LeftButton) in
  let painted p q :=
    pm_painted (pixmap (mouseRleaseEvent
                          (mk 700 800 p q Sample.welcome) released)) in
  painted (mkQPoint 10 10) (mkQPoint 20 20) = [mkQRect 10 10 20 20]
  /\ painted (mkQPoint 20 20) (mkQPoint 10 10) = [mkQRect 11 11 19 19].
Proof. split; reflexivity. Qed.

(** The event of a release of the left button, the only button held, has no
    button in [buttons()]. *)
Lemma left_release_buttons (p : QPoint) :
  buttons (fst (generate (flag LeftButton) (Release LeftButton p))) = 0.
Proof. reflexivity. Qed.

Lemma run_drag (c : t) (p q : QPoint) :
  run (0, c) (Sample.drag p q) = (0, mk (width c) (height c) p q (pixmap c)).
Proof. reflexivity. Qed.

(** C1, on the program: after a press at [p], a move to [q] and the release
    of the left button, the two points are still [p] and [q] and nothing
    has been painted into the pixmap. *)
Theorem release_leaves_drag_in_progress (c : t) (p q : QPoint) :
  let c' := snd (run (0, c) (Sample.drag p q)) in
  begin c' = p /\ destination c' = q /\ pixmap c' = pixmap c.
Proof. rewrite run_drag. simpl. auto. Qed.

(** C8, on the program: a drag commits no rectangle, in either direction. *)
Theorem drag_commits_nothing (c : t) (p q : QPoint) :
  pm_painted (pixmap (snd (run (0, c) (Sample.drag p q)))) = pm_painted (pixmap c)
  /\ pm_painted (pixmap (snd (run (0, c) (Sample.drag q p)))) = pm_painted (pixmap c).
Proof. rewrite !run_drag. simpl. auto. Qed.

(** A release changes nothing in the canvas, whatever the buttons held. *)
Lemma release_ignored (s : session) (b : MouseButton) (p : QPoint) :
  snd (deliver s (Release b p)) = snd s.
Proof. destruct s. now rewrite deliver_release. Qed.

(** C4, as stated, fails: the pointer is dragged from (5, 5) to the corner
    (0, 0) of the canvas. *)
Lemma drag_to_origin_breaks_pairing :
  let c := snd (run (0, Sample.canvas 700 800)
                    [Press LeftButton (mkQPoint 5 5); Move (mkQPoint 0 0)]) in
  isNull (begin c) = false /\ isNull (destination c) = true.
Proof. split; reflexivity. Qed.

Lemma pairing_step (s : session) (i : MouseInput) :
  isNull (input_pos i) = false ->
  isNull (begin (snd s)) = isNull (destination (snd s))
  /\ (has_button (fst s) LeftButton = true -> isNull (begin (snd s)) = false) ->
  isNull (begin (snd (deliver s i))) = isNull (destination (snd (deliver s i)))
  /\ (has_button (fst (deliver s i)) LeftButton = true ->
      isNull (begin (snd (deliver s i))) = false).
Proof.
  destruct s as [held c]. simpl fst. simpl snd.
  intros Hp [Hpair Hheld]. destruct i as [b p|p|b p]; simpl in Hp.
  - rewrite deliver_press. simpl fst. simpl snd.
    destruct (has_button (Z.lor held (flag b)) LeftButton) eqn:L; simpl.
    + auto.
    + split; [assumption|discriminate].
  - rewrite deliver_move. simpl fst. simpl snd.
    destruct (has_button held LeftButton) eqn:L; simpl.
    + split; [|auto]. rewrite Hp. auto.
    + split; [assumption|discriminate].
  - rewrite deliver_release. simpl fst. simpl snd.
    split; [assumption|]. intros L. apply Hheld. eapply has_left_release, L.
Qed.

Lemma pairing_run (inputs : list MouseInput) (s : session) :
  Forall (fun i => isNull (input_pos i) = false) inputs ->
  isNull (begin (snd s)) = isNull (destination (snd s))
  /\ (has_button (fst s) LeftButton = true -> isNull (begin (snd s)) = false) ->
  isNull (begin (snd (run s inputs))) = isNull (destination (snd (run s inputs)))
  /\ (has_button (fst (run s inputs)) LeftButton = true ->
      isNull (begin (snd (run s inputs))) = false).
Proof.
  revert s. induction inputs as [|i rest IH]; intros s Hall Hs.
  - exact Hs.
  - inversion Hall as [|? ? Hi Hrest]; subst.
    apply (IH (deliver s i) Hrest). now apply pairing_step.
Qed.

(** C4, amended: from the canvas as [__init__] leaves it, and as long as no
    press, move or release happens at the point (0, 0), the two points are
    both null or both non-null. *)
Theorem begin_destination_paired
  (width height : Z) (welcome : QPixmap) (inputs : list MouseInput) :
  Forall (fun i => isNull (input_pos i) = false) inputs ->
  let c := snd (run (0, __init__ width height welcome) inputs) in
  isNull (begin c) = isNull (destination c).
Proof.
  intros Hall. apply (pairing_run inputs (0, __init__ width height welcome) Hall).
  split; [reflexivity|discriminate].
Qed.

Lemma begin_destination_paired_witness :
  Forall (fun i => isNull (input_pos i) = false)
         (Sample.drag (mkQPoint 10 10) (mkQPoint 20 20))
  /\ let c := snd (run (0, __init__ 700 800 Sample.welcome)
                       (Sample.drag (mkQPoint 10 10) (mkQPoint 20 20))) in
     isNull (begin c) = isNull (destination c).
Proof.
  assert (H : Forall (fun i => isNull (input_pos i) = false)
                     (Sample.drag (mkQPoint 10 10) (mkQPoint 20 20)))
    by (repeat constructor).
  exact (conj H (begin_destination_paired 700 800 Sample.welcome _ H)).
Defined.

Lemma overlay_null_begin (c : t) :
  isNull (begin c) = true -> overlay (paintEvent c) = [].
Proof.
  intros H. unfold paintEvent.
  destruct (calculate_size_of_page c _ _) as [e|[wi hi]]; [reflexivity|].
  destruct (calculate_zero_coordinates c wi hi) as [x y].
  rewrite H. reflexivity.
Qed.

Lemma moves_keep_begin (ps : list QPoint) (s : session) :
  fst (run s (map Move ps)) = fst s
  /\ begin (snd (run s (map Move ps))) = begin (snd s).
Proof.
  revert s. induction ps as [|p ps IH]; intros [held c]; [split; reflexivity|].
  simpl map. unfold run. simpl fold_left. fold (run (deliver (held, c) (Move p)) (map Move ps)).
  destruct (IH (deliver (held, c) (Move p))) as [-> ->].
  rewrite deliver_move. simpl. now destruct (has_button held LeftButton).
Qed.

(** C10: after a press of the left button at (0, 0), and while the pointer
    is dragged with the button held, [begin] tests as null and
    [paintEvent] draws no rectangle over the page. *)
Theorem drag_from_origin_has_no_overlay
  (s : session) (path : list QPoint) :
  let s' := run s (Press LeftButton QPoint_default :: map Move path) in
  has_button (fst s') LeftButton = true
  /\ isNull (begin (snd s')) = true
  /\ overlay (paintEvent (snd s')) = [].
Proof.
  destruct s as [held c].
  assert (L : has_button (Z.lor held (flag LeftButton)) LeftButton = true)
    by (rewrite has_left_press; apply Bool.orb_true_r).
  pose proof (deliver_press held c LeftButton QPoint_default) as Hs1.
  rewrite L in Hs1.
  change (run (held, c) (Press LeftButton QPoint_default :: map Move path))
    with (run (deliver (held, c) (Press LeftButton QPoint_default)) (map Move path)).
  set (s1 := deliver (held, c) (Press LeftButton QPoint_default)) in *.
  destruct (moves_keep_begin path s1) as [Eh Eb]. cbv zeta.
  assert (N : isNull (begin (snd (run s1 (map Move path)))) = true)
    by (rewrite Eb, Hs1; reflexivity).
  split; [rewrite Eh, Hs1; exact L|].
  split; [exact N|]. apply overlay_null_begin. exact N.
Qed.

End Drag.

(** * The page sequence and the controller *)

Module Pages.
Import PdfToImage.

(** C9: a negative index down to [- len] is not rejected; it selects the
    page that many places from the end. *)
Theorem getitem_negative_index (self : t) (i : Z) :
  - __len__ self <= i < 0 ->
  exists page : PpmImageFile,
    nth_error (images self) (Z.to_nat (__len__ self + i)) = Some page
    /\ __getitem__ self i = inr page.
Proof.
  intros Hi. unfold __getitem__, list_getitem, __len__ in *.
  set (n := Z.of_nat (List.length (images self))) in *.
  assert (L : (i <? 0) = true) by (apply Z.ltb_lt; lia). rewrite L.
  assert (R : (0 <=? i + n) && (i + n <? n) = true).
  { apply andb_true_iff. split; [apply Z.leb_le|apply Z.ltb_lt]; lia. }
  rewrite R. rewrite (Z.add_comm n i).
  destruct (nth_error (images self) (Z.to_nat (i + n))) as [page|] eqn:E.
  - exists page. split; reflexivity.
  - apply nth_error_None in E. unfold n in *. lia.
Qed.

Lemma getitem_negative_index_witness :
  - __len__ (mk [Sample.portrait; Sample.landscape; Sample.portrait]) <= -2 < 0
  /\ exists page : PpmImageFile,
       nth_error (images (mk [Sample.portrait; Sample.landscape; Sample.portrait]))
                 (Z.to_nat (__len__ (mk [Sample.portrait; Sample.landscape; Sample.portrait]) + -2))
       = Some page
       /\ __getitem__ (mk [Sample.portrait; Sample.landscape; Sample.portrait]) (-2)
          = inr page.
Proof.
  assert (H : - __len__ (mk [Sample.portrait; Sample.landscape; Sample.portrait]) <= -2 < 0)
    by (vm_compute; split; [discriminate|reflexivity]).
  exact (conj H (getitem_negative_index _ (-2) H)).
Defined.

End Pages.

Module Controller.
Import Window.

(** C2, on the program: opening a document of one page leaves the page
    index at 0, which is also the last page, with the next button enabled,
    and a click on it raises [IndexError]; opening a document after
    leaving the first page of another leaves the previous button enabled on
    page 0. *)
Theorem open_does_not_recompute_buttons :
  (let w := snd (handle_all Sample.convert_from_path
                            [ChooseFile "one.pdf"] Sample.window) in
   current_page w = 0
   /\ option_map PdfToImage.__len__ (pdf w) = Some 1
   /\ button_next_page w = true
   /\ fst (handle Sample.convert_from_path ClickNext w) = inl IndexError)
  /\ (let w := snd (handle_all Sample.convert_from_path
                               [ChooseFile "three.pdf"; ClickNext; ChooseFile "one.pdf"]
                               Sample.window) in
      current_page w = 0 /\ button_prev_page w = true).
Proof. vm_compute. repeat split. Qed.

(** The scenario of a document of three pages: the label reads "1 / 3"
    with previous disabled and next enabled; after two clicks on next it
    reads "3 / 3" with next disabled and previous enabled. *)
Example three_pages_scenario :
  (let w := snd (handle_all Sample.convert_from_path
                            [ChooseFile "three.pdf"] Sample.window) in
   label_pages w = "1 / 3"%string
   /\ button_prev_page w = false /\ button_next_page w = true)
  /\ (let w := snd (handle_all Sample.convert_from_path
                               [ChooseFile "three.pdf"; ClickNext; ClickNext]
                               Sample.window) in
      label_pages w = "3 / 3"%string
      /\ button_prev_page w = true /\ button_next_page w = false).
Proof. vm_compute. repeat split. Qed.

(** C7, as stated, fails: the open of an unreadable file, on page 2 of
    "three.pdf", raises and leaves the new file name and page index 0
    behind. *)
Lemma failed_open_keeps_partial_state :
  let w := snd (handle_all Sample.convert_from_path
                           [ChooseFile "three.pdf"; ClickNext] Sample.window) in
  let r := select_file Sample.convert_from_path "broken.pdf" w in
  fst r = inl (OtherError "PDFPageCountError")
  /\ filename w = "three.pdf"%string /\ filename (snd r) = "broken.pdf"%string
  /\ current_page w = 1 /\ current_page (snd r) = 0.
Proof. vm_compute. repeat split. Qed.

(** C7, amended: when the conversion raises, [select_file] raises the same
    exception; the document, the label, the buttons and the canvas are as
    before, the file name is the chosen one and the page index is 0. *)
Theorem select_file_failure
  (convert_from_path : string -> Z -> exn + list PpmImageFile)
  (chosen : string) (e : exn) (w : t) :
  chosen <> ""%string ->
  convert_from_path chosen PdfToImage.default_dpi = inl e ->
  select_file convert_from_path chosen w
  = (inl e, mk (pdf w) chosen 0 (label_pages w)
               (button_prev_page w) (button_next_page w) (canvas w)).
Proof.
  intros Hne Hfail. unfold select_file.
  apply String.eqb_neq in Hne. rewrite Hne.
  unfold bind, set, get, read_pdf, bind, lift, PdfToImage.__init__. simpl.
  rewrite Hfail. reflexivity.
Qed.

Lemma select_file_failure_witness :
  "broken.pdf"%string <> ""%string
  /\ Sample.convert_from_path "broken.pdf" PdfToImage.default_dpi
     = inl (OtherError "PDFPageCountError")
  /\ select_file Sample.convert_from_path "broken.pdf" Sample.window
     = (inl (OtherError "PDFPageCountError"),
        mk (pdf Sample.window) "broken.pdf" 0 (label_pages Sample.window)
           (button_prev_page Sample.window) (button_next_page Sample.window)
           (canvas Sample.window)).
Proof.
  assert (A : "broken.pdf"%string <> ""%string) by discriminate.
  assert (B : Sample.convert_from_path "broken.pdf" PdfToImage.default_dpi
              = inl (OtherError "PDFPageCountError")) by reflexivity.
  exact (conj A (conj B (select_file_failure _ _ _ Sample.window A B))).
Defined.

End Controller.

(** * More on the page sequence *)

Module PageLookup.
Import PdfToImage.

(** X1: an index from 0 up to the number of pages selects the page at that
    position. *)
Theorem getitem_in_range (self : t) (i : Z) :
  0 <= i < __len__ self ->
  exists page : PpmImageFile,
    nth_error (images self) (Z.to_nat i) = Some page
    /\ __getitem__ self i = inr page.
Proof.
  intros Hi. unfold __getitem__, list_getitem, __len__ in *.
  set (n := Z.of_nat (List.length (images self))) in *.
  assert (L : (i <? 0) = false) by (apply Z.ltb_ge; lia). rewrite L.
  assert (R : (0 <=? i) && (i <? n) = true).
  { apply andb_true_iff. split; [apply Z.leb_le|apply Z.ltb_lt]; lia. }
  rewrite R.
  destruct (nth_error (images self) (Z.to_nat i)) as [page|] eqn:E.
  - exists page. split; reflexivity.
  - apply nth_error_None in E. unfold n in *. lia.
Qed.

Lemma getitem_in_range_witness :
  0 <= 1 < __len__ (mk [Sample.portrait; Sample.landscape; Sample.portrait])
  /\ exists page : PpmImageFile,
       nth_error (images (mk [Sample.portrait; Sample.landscape; Sample.portrait]))
                 (Z.to_nat 1) = Some page
       /\ __getitem__ (mk [Sample.portrait; Sample.landscape; Sample.portrait]) 1
          = inr page.
Proof.
  assert (H : 0 <= 1 < __len__ (mk [Sample.portrait; Sample.landscape; Sample.portrait]))
    by (vm_compute; split; [discriminate|reflexivity]).
  exact (conj H (getitem_in_range _ 1 H)).
Defined.

End PageLookup.

(** * More on painting *)

Module Painting.
Import Canvas PyFloat PyFloatFacts.

Lemma round_nonneg (q : Q) : (0 <= q)%Q -> (0 <= round q)%Q.
Proof.
  intros H. pose proof (round_error_nonneg q H) as [L _].
  change (1 # 2 ^ 53)%Q with (1 # 9007199254740992)%Q in L. lra.
Qed.

Lemma scaled_side_nonneg (c a b : Z) :
  0 <= c -> 0 <= a -> 0 < b ->
  0 <= to_int (mul (of_int c) (round (inject_Z a / inject_Z b))).
Proof.
  intros Hc Ha Hb.
  assert (R : (0 <= round (inject_Z a / inject_Z b))%Q).
  { apply round_nonneg. apply Qle_shift_div_l; [apply inject_Z_pos; exact Hb|].
    rewrite Qmult_0_l. apply inject_Z_nonneg. exact Ha. }
  assert (C : (0 <= of_int c)%Q)
    by (apply round_nonneg, inject_Z_nonneg; exact Hc).
  assert (Y : (0 <= mul (of_int c) (round (inject_Z a / inject_Z b)))%Q)
    by (apply round_nonneg, Qmult_le_0_compat; assumption).
  rewrite (to_int_nonneg _ Y). rewrite <- (Qfloor_Z 0).
  apply Qfloor_resp_le. exact Y.
Qed.

Lemma size_of_page_defined (self : t) (w h : Z) :
  0 <= w -> 0 <= h -> 0 <= width self -> 0 <= height self ->
  exists W H : Z,
    calculate_size_of_page self w h = inr (W, H)
    /\ 0 <= W /\ 0 <= H
    /\ (w <= width self /\ h <= height self -> W = w /\ H = h)
    /\ (~ (w <= width self /\ h <= height self) ->
        (h < w -> W = width self) /\ (w <= h -> H = height self)).
Proof.
  intros Hw Hh Hcw Hch. unfold calculate_size_of_page, truediv.
  destruct ((w <=? width self) && (h <=? height self)) eqn:Fit.
  - apply andb_true_iff in Fit. destruct Fit as [F1 F2]. apply Z.leb_le in F1, F2.
    exists w, h. repeat split; try lia. all: intros N; exfalso; apply N; lia.
  - apply andb_false_iff in Fit.
    assert (Over : width self < w \/ height self < h)
      by (destruct Fit as [F|F]; apply Z.leb_gt in F; lia).
    destruct (Z.ltb_spec h w) as [L|L].
    + assert (Hn : (w =? 0) = false) by (apply Z.eqb_neq; lia). rewrite Hn.
      eexists _, _. split; [reflexivity|]. split; [lia|].
      split; [apply scaled_side_nonneg; lia|]. split; [lia|].
      intros _. split; [reflexivity|lia].
    + assert (Hn : (h =? 0) = false) by (apply Z.eqb_neq; lia). rewrite Hn.
      eexists _, _. split; [reflexivity|].
      split; [apply scaled_side_nonneg; lia|]. split; [lia|]. split; [lia|].
      intros _. split; [lia|reflexivity].
Qed.

(** X3: for sizes that are not negative [calculate_size_of_page] raises
    nothing, and neither side of its result is negative; the result is the
    natural size when the image fits, and otherwise has the canvas size on
    the axis of the longer side of the image. *)
Theorem calculate_size_of_page_returns (self : t) (w h : Z) :
  0 <= w -> 0 <= h -> 0 <= width self -> 0 <= height self ->
  exists W H : Z,
    calculate_size_of_page self w h = inr (W, H)
    /\ 0 <= W /\ 0 <= H
    /\ (w <= width self /\ h <= height self -> W = w /\ H = h)
    /\ (~ (w <= width self /\ h <= height self) ->
        (h < w -> W = width self) /\ (w <= h -> H = height self)).
Proof. exact (size_of_page_defined self w h). Qed.

Lemma calculate_size_of_page_returns_witness :
  0 <= 1800 /\ 0 <= 1000
  /\ 0 <= width (Sample.canvas 1900 900) /\ 0 <= height (Sample.canvas 1900 900)
  /\ exists W H : Z,
       calculate_size_of_page (Sample.canvas 1900 900) 1800 1000 = inr (W, H)
       /\ 0 <= W /\ 0 <= H
       /\ (1800 <= width (Sample.canvas 1900 900)
           /\ 1000 <= height (Sample.canvas 1900 900) -> W = 1800 /\ H = 1000)
       /\ (~ (1800 <= width (Sample.canvas 1900 900)
              /\ 1000 <= height (Sample.canvas 1900 900)) ->
           (1000 < 1800 -> W = width (Sample.canvas 1900 900))
           /\ (1800 <= 1000 -> H = height (Sample.canvas 1900 900))).
Proof.
  assert (A : 0 <= 1800) by lia. assert (B : 0 <= 1000) by lia.
  assert (C : 0 <= width (Sample.canvas 1900 900)) by (simpl; lia).
  assert (D : 0 <= height (Sample.canvas 1900 900)) by (simpl; lia).
  exact (conj A (conj B (conj C (conj D
    (calculate_size_of_page_returns (Sample.canvas 1900 900) 1800 1000 A B C D))))).
Defined.

Lemma paintEvent_shape (self : t) :
  0 <= pm_width (pixmap self) -> 0 <= pm_height (pixmap self) ->
  0 <= width self -> 0 <= height self ->
  exists x y w h : Z,
    paintEvent self
    = inr ([SetPen "red" 3; DrawPixmap x y w h (pixmap self)]
           ++ map DrawRect (overlay (paintEvent self)))
    /\ overlay (paintEvent self)
       = if isNull (begin self) || isNull (destination self) then []
         else [normalized (QRect_of_points (begin self) (destination self))].
Proof.
  intros Hw Hh Hcw Hch.
  destruct (size_of_page_defined self _ _ Hw Hh Hcw Hch)
    as (W & H & E & _).
  unfold paintEvent. rewrite E.
  destruct (calculate_zero_coordinates self W H) as [x y].
  exists x, y, W, H.
  destruct (isNull (begin self)), (isNull (destination self)); simpl; split; reflexivity.
Qed.

(** X6: with sizes that are not negative [paintEvent] raises nothing; it
    sets the red pen, draws the pixmap once, and then draws the normalized
    rectangle of the two points when neither of them is null, and no
    rectangle otherwise. *)
Theorem paintEvent_overlay (self : t) :
  0 <= pm_width (pixmap self) -> 0 <= pm_height (pixmap self) ->
  0 <= width self -> 0 <= height self ->
  exists x y w h : Z,
    paintEvent self
    = inr ([SetPen "red" 3; DrawPixmap x y w h (pixmap self)]
           ++ map DrawRect (overlay (paintEvent self)))
    /\ overlay (paintEvent self)
       = if isNull (begin self) || isNull (destination self) then []
         else [normalized (QRect_of_points (begin self) (destination self))].
Proof. exact (paintEvent_shape self). Qed.

Lemma paintEvent_overlay_witness :
  let c := mk 700 800 (mkQPoint 10 10) (mkQPoint 20 20) Sample.welcome in
  0 <= pm_width (pixmap c) /\ 0 <= pm_height (pixmap c)
  /\ 0 <= width c /\ 0 <= height c
  /\ exists x y w h : Z,
       paintEvent c
       = inr ([SetPen "red" 3; DrawPixmap x y w h (pixmap c)]
              ++ map DrawRect (overlay (paintEvent c)))
       /\ overlay (paintEvent c)
          = if isNull (begin c) || isNull (destination c) then []
            else [normalized (QRect_of_points (begin c) (destination c))].
Proof.
  intros c.
  assert (A : 0 <= pm_width (pixmap c)) by (simpl; lia).
  assert (B : 0 <= pm_height (pixmap c)) by (simpl; lia).
  assert (C : 0 <= width c) by (simpl; lia).
  assert (D : 0 <= height c) by (simpl; lia).
  exact (conj A (conj B (conj C (conj D (paintEvent_overlay c A B C D))))).
Defined.

(** X5: a pixmap that fits the canvas is drawn at its natural size and
    entirely inside the canvas, its centre within one pixel of the centre
    of the canvas on both axes. *)
Theorem paintEvent_fitting_page (self : t) :
  0 <= pm_width (pixmap self) <= width self -> width self < 2 ^ 31 ->
  0 <= pm_height (pixmap self) <= height self -> height self < 2 ^ 31 ->
  exists x y : Z,
    paintEvent self
    = inr ([SetPen "red" 3;
            DrawPixmap x y (pm_width (pixmap self)) (pm_height (pixmap self))
                       (pixmap self)]
           ++ map DrawRect (overlay (paintEvent self)))
    /\ 0 <= x /\ x + pm_width (pixmap self) <= width self
    /\ 0 <= y /\ y + pm_height (pixmap self) <= height self
    /\ Z.abs (2 * x + pm_width (pixmap self) - width self) <= 1
    /\ Z.abs (2 * y + pm_height (pixmap self) - height self) <= 1.
Proof.
  intros Hw Hcw Hh Hch.
  set (w := pm_width (pixmap self)) in *. set (h := pm_height (pixmap self)) in *.
  assert (Fit : (w <=? width self) && (h <=? height self) = true).
  { apply andb_true_iff. split; apply Z.leb_le; lia. }
  unfold paintEvent. fold w h. unfold calculate_size_of_page. rewrite Fit.
  unfold calculate_zero_coordinates. rewrite Fit.
  rewrite (centre_offset (width self) w), (centre_offset (height self) h) by lia.
  rewrite (Z.abs_eq (width self - w)), (Z.abs_eq (height self - h)) by lia.
  exists ((width self - w) / 2), ((height self - h) / 2).
  split.
  - destruct (isNull (begin self)), (isNull (destination self)); reflexivity.
  - pose proof (Z.div_mod (width self - w) 2 ltac:(lia)).
    pose proof (Z.mod_pos_bound (width self - w) 2 ltac:(lia)).
    pose proof (Z.div_mod (height self - h) 2 ltac:(lia)).
    pose proof (Z.mod_pos_bound (height self - h) 2 ltac:(lia)).
    lia.
Qed.

Lemma paintEvent_fitting_page_witness :
  (0 <= pm_width (pixmap (Sample.canvas 701 800)) <= width (Sample.canvas 701 800))
  /\ width (Sample.canvas 701 800) < 2 ^ 31
  /\ (0 <= pm_height (pixmap (Sample.canvas 701 800)) <= height (Sample.canvas 701 800))
  /\ height (Sample.canvas 701 800) < 2 ^ 31
  /\ exists x y : Z,
       paintEvent (Sample.canvas 701 800)
       = inr ([SetPen "red" 3;
               DrawPixmap x y (pm_width (pixmap (Sample.canvas 701 800)))
                          (pm_height (pixmap (Sample.canvas 701 800)))
                          (pixmap (Sample.canvas 701 800))]
              ++ map DrawRect (overlay (paintEvent (Sample.canvas 701 800))))
       /\ 0 <= x /\ x + pm_width (pixmap (Sample.canvas 701 800)) <= width (Sample.canvas 701 800)
       /\ 0 <= y /\ y + pm_height (pixmap (Sample.canvas 701 800)) <= height (Sample.canvas 701 800)
       /\ Z.abs (2 * x + pm_width (pixmap (Sample.canvas 701 800)) - width (Sample.canvas 701 800)) <= 1
       /\ Z.abs (2 * y + pm_height (pixmap (Sample.canvas 701 800)) - height (Sample.canvas 701 800)) <= 1.
Proof.
  assert (A : 0 <= pm_width (pixmap (Sample.canvas 701 800)) <= width (Sample.canvas 701 800))
    by (simpl; lia).
  assert (B : width (Sample.canvas 701 800) < 2 ^ 31) by (simpl; lia).
  assert (C : 0 <= pm_height (pixmap (Sample.canvas 701 800)) <= height (Sample.canvas 701 800))
    by (simpl; lia).
  assert (D : height (Sample.canvas 701 800) < 2 ^ 31) by (simpl; lia).
  exact (conj A (conj B (conj C (conj D
    (paintEvent_fitting_page (Sample.canvas 701 800) A B C D))))).
Defined.



End Painting.

(** * More on the pointer *)

Module Pointer.
Import Canvas CanvasFacts.

Lemma run_cons (s : session) (i : MouseInput) (rest : list MouseInput) :
  run s (i :: rest) = run (deliver s i) rest.
Proof. reflexivity. Qed.

Lemma last_cons (A : Type) (l : list A) (a d : A) : last (a :: l) d = last l a.
Proof.
  revert a d. induction l as [|b l IH]; intros a d; [reflexivity|].
  change (last (a :: b :: l) d) with (last (b :: l) d). now rewrite !IH.
Qed.

Lemma moves_with_left_held (path : list QPoint) (held : Z) (c : t) :
  has_button held LeftButton = true ->
  run (held, c) (map Move path)
  = (held, mk (width c) (height c) (begin c) (last path (destination c)) (pixmap c)).
Proof.
  intros L. revert c. induction path as [|q path IH]; intros c.
  - now destruct c.
  - simpl map. rewrite run_cons, deliver_move, L, IH, last_cons. reflexivity.
Qed.

(** X8: after a press of the left button at [p] and any moves with the
    button held, [begin] is [p] and [destination] is the last position of
    the pointer ([p] itself when it has not moved). *)
Theorem drag_tracks_pointer (s : session) (p : QPoint) (path : list QPoint) :
  let c := snd (run s (Press LeftButton p :: map Move path)) in
  begin c = p /\ destination c = last path p.
Proof.
  destruct s as [held c0]. rewrite run_cons, deliver_press.
  assert (L : has_button (Z.lor held (flag LeftButton)) LeftButton = true)
    by (rewrite has_left_press; apply Bool.orb_true_r).
  rewrite L, (moves_with_left_held path _ _ L). simpl. auto.
Qed.

Lemma deliver_frame (s : session) (i : MouseInput) :
  pixmap (snd (deliver s i)) = pixmap (snd s)
  /\ width (snd (deliver s i)) = width (snd s)
  /\ height (snd (deliver s i)) = height (snd s).
Proof.
  destruct s as [held c]. destruct i as [b p|p|b p].
  - rewrite deliver_press. simpl. destruct (has_button _ _); simpl; auto.
  - rewrite deliver_move. simpl. destruct (has_button _ _); simpl; auto.
  - rewrite deliver_release. simpl. auto.
Qed.

(** X9: no sequence of presses, moves and releases changes the pixmap or
    the size of the canvas: mouse input never paints into the page image. *)
Theorem mouse_input_never_paints (inputs : list MouseInput) (s : session) :
  pixmap (snd (run s inputs)) = pixmap (snd s)
  /\ width (snd (run s inputs)) = width (snd s)
  /\ height (snd (run s inputs)) = height (snd s).
Proof.
  revert s. induction inputs as [|i rest IH]; intros s; [auto|].
  rewrite run_cons. destruct (IH (deliver s i)) as (-> & -> & ->).
  apply deliver_frame.
Qed.

Lemma idle_step (s : session) (i : MouseInput) :
  has_button (fst s) LeftButton = false ->
  match i with Press LeftButton _ => False | _ => True end ->
  has_button (fst (deliver s i)) LeftButton = false /\ snd (deliver s i) = snd s.
Proof.
  destruct s as [held c]. simpl fst. simpl snd. intros L Hi.
  destruct i as [b p|p|b p].
  - rewrite deliver_press. simpl fst. simpl snd.
    assert (E : has_button (Z.lor held (flag b)) LeftButton = false)
      by (rewrite has_left_press, L; destruct b; [contradiction|reflexivity..]).
    rewrite E. auto.
  - rewrite deliver_move. simpl. rewrite L. auto.
  - rewrite deliver_release. simpl. split; [|reflexivity].
    destruct (has_button (Z.ldiff held (flag b)) LeftButton) eqn:E; [|reflexivity].
    apply has_left_release in E. congruence.
Qed.

(** X10: while the left button is not held, presses of the other buttons,
    moves and releases leave the canvas as it is. *)
Theorem other_buttons_do_not_participate (inputs : list MouseInput) (s : session) :
  has_button (fst s) LeftButton = false ->
  Forall (fun i => match i with Press LeftButton _ => False | _ => True end) inputs ->
  snd (run s inputs) = snd s.
Proof.
  revert s. induction inputs as [|i rest IH]; intros s L Hall; [reflexivity|].
  inversion Hall as [|? ? Hi Hrest]; subst.
  destruct (idle_step s i L Hi) as [L' E].
  rewrite run_cons, (IH _ L' Hrest). exact E.
Qed.

Lemma other_buttons_do_not_participate_witness :
  has_button (fst (0, Sample.canvas 700 800)) LeftButton = false
  /\ Forall (fun i => match i with Press LeftButton _ => False | _ => True end)
            [Press RightButton (mkQPoint 10 10); Move (mkQPoint 20 20);
             Release RightButton (mkQPoint 20 20); Press MiddleButton (mkQPoint 5 5)]
  /\ snd (run (0, Sample.canvas 700 800)
              [Press RightButton (mkQPoint 10 10); Move (mkQPoint 20 20);
               Release RightButton (mkQPoint 20 20); Press MiddleButton (mkQPoint 5 5)])
     = snd (0, Sample.canvas 700 800).
Proof.
  assert (A : has_button (fst (0, Sample.canvas 700 800)) LeftButton = false)
    by reflexivity.
  assert (B : Forall (fun i => match i with Press LeftButton _ => False | _ => True end)
            [Press RightButton (mkQPoint 10 10); Move (mkQPoint 20 20);
             Release RightButton (mkQPoint 20 20); Press MiddleButton (mkQPoint 5 5)])
    by (repeat constructor).
  exact (conj A (conj B (other_buttons_do_not_participate _ _ A B))).
Defined.

(** X11: while the left button is held, the press of any button starts the
    drag again at the pointer: both points become the position of the
    press. *)
Theorem press_while_left_held_restarts (s : session) (b : MouseButton) (p : QPoint) :
  has_button (fst s) LeftButton = true ->
  begin (snd (deliver s (Press b p))) = p
  /\ destination (snd (deliver s (Press b p))) = p.
Proof.
  destruct s as [held c]. simpl fst. intros L.
  rewrite deliver_press, has_left_press, L. simpl. auto.
Qed.

Lemma press_while_left_held_restarts_witness :
  let s := run (0, Sample.canvas 700 800)
               [Press LeftButton (mkQPoint 10 10); Move (mkQPoint 20 20)] in
  has_button (fst s) LeftButton = true
  /\ begin (snd (deliver s (Press RightButton (mkQPoint 30 30)))) = mkQPoint 30 30
  /\ destination (snd (deliver s (Press RightButton (mkQPoint 30 30)))) = mkQPoint 30 30.
Proof.
  intros s.
  assert (A : has_button (fst s) LeftButton = true) by reflexivity.
  exact (conj A (press_while_left_held_restarts s RightButton (mkQPoint 30 30) A)).
Defined.

(** X12: called with the event of a release of the left button, whatever
    other buttons are held, [mouseRleaseEvent] changes nothing: the released
    button is not among [buttons()]. *)
Theorem handler_skips_left_release (held : Z) (c : t) (p : QPoint) :
  mouseRleaseEvent c (fst (generate held (Release LeftButton p))) = c.
Proof.
  unfold mouseRleaseEvent.
  change (buttons (fst (generate held (Release LeftButton p))))
    with (Z.ldiff held (flag LeftButton)).
  assert (E : has_button (Z.ldiff held (flag LeftButton)) LeftButton = false).
  { rewrite has_left_testbit, Z.ldiff_spec by lia.
    change (Z.testbit (flag LeftButton) 0) with true. apply Bool.andb_false_r. }
  now rewrite E.
Qed.

End Pointer.

(** * More on the navigation *)

Module Navigation.
Import Window.

Lemma display_page_spec (page : Z) (w : t) :
  display_page page w
  = match pdf w with
    | None => (inl TypeError, w)
    | Some doc =>
        match PdfToImage.__getitem__ doc page with
        | inl e => (inl e, w)
        | inr image =>
            (inr tt,
             mk (Some doc) (filename w) (current_page w)
                (str (current_page w + 1) ++ " / " ++ str (PdfToImage.__len__ doc))
                (button_prev_page w) true (Canvas.reload (canvas w) image))
        end
    end.
Proof.
  destruct w as [p f n l bp bn c]. unfold display_page, pdf_getitem, pdf_len, bind, get, set, lift.
  simpl. destruct p as [doc|]; [|reflexivity].
  destruct (PdfToImage.__getitem__ doc page); reflexivity.
Qed.

Lemma display_next_page_spec (w : t) :
  display_next_page w
  = match pdf w with
    | None => (inl TypeError, set_current_page w (current_page w + 1))
    | Some doc =>
        match PdfToImage.__getitem__ doc (current_page w + 1) with
        | inl e => (inl e, set_current_page w (current_page w + 1))
        | inr image =>
            (inr tt,
             mk (Some doc) (filename w) (current_page w + 1)
                (str (current_page w + 1 + 1) ++ " / " ++ str (PdfToImage.__len__ doc))
                true (negb (current_page w + 1 =? PdfToImage.__len__ doc - 1))
                (Canvas.reload (canvas w) image))
        end
    end.
Proof.
  unfold display_next_page. cbv beta iota delta [bind get set].
  rewrite display_page_spec.
  destruct w as [p f n l bp bn c]. simpl.
  destruct p as [doc|]; [|reflexivity].
  destruct (PdfToImage.__getitem__ doc (n + 1)); reflexivity.
Qed.

Lemma display_prev_page_spec (w : t) :
  display_prev_page w
  = match pdf w with
    | None => (inl TypeError, set_current_page w (current_page w - 1))
    | Some doc =>
        match PdfToImage.__getitem__ doc (current_page w - 1) with
        | inl e => (inl e, set_current_page w (current_page w - 1))
        | inr image =>
            (inr tt,
             mk (Some doc) (filename w) (current_page w - 1)
                (str (current_page w - 1 + 1) ++ " / " ++ str (PdfToImage.__len__ doc))
                (negb (current_page w - 1 =? 0)) true
                (Canvas.reload (canvas w) image))
        end
    end.
Proof.
  unfold display_prev_page. cbv beta iota delta [bind get set].
  rewrite display_page_spec.
  destruct w as [p f n l bp bn c]. simpl.
  destruct p as [doc|]; [|reflexivity].
  destruct (PdfToImage.__getitem__ doc (n - 1)); reflexivity.
Qed.

Lemma select_file_spec
  (convert_from_path : string -> Z -> exn + list PpmImageFile)
  (chosen : string) (w : t) :
  chosen <> ""%string ->
  select_file convert_from_path chosen w
  = match convert_from_path chosen PdfToImage.default_dpi with
    | inl e => (inl e, mk (pdf w) chosen 0 (label_pages w)
                          (button_prev_page w) (button_next_page w) (canvas w))
    | inr pages =>
        match PdfToImage.__getitem__ (PdfToImage.mk pages) 0 with
        | inl e => (inl e, mk (Some (PdfToImage.mk pages)) chosen 0 (label_pages w)
                              (button_prev_page w) (button_next_page w) (canvas w))
        | inr image =>
            (inr tt,
             mk (Some (PdfToImage.mk pages)) chosen 0
                (str 1 ++ " / " ++ str (Z.of_nat (List.length pages)))
                (button_prev_page w) true (Canvas.reload (canvas w) image))
        end
    end.
Proof.
  intros Hne. apply String.eqb_neq in Hne. unfold select_file. rewrite Hne.
  unfold read_pdf. cbv beta iota delta [bind get set lift PdfToImage.__init__].
  change (filename (set_current_page (set_filename w chosen) 0)) with chosen.
  destruct (convert_from_path chosen PdfToImage.default_dpi) as [e|pages]; [reflexivity|].
  cbv beta iota delta [ret]. rewrite display_page_spec. simpl.
  destruct (PdfToImage.__getitem__ (PdfToImage.mk pages) 0); reflexivity.
Qed.

Lemma getitem_nth (doc : PdfToImage.t) (i : Z) :
  0 <= i < PdfToImage.__len__ doc ->
  exists image : PpmImageFile,
    nth_error (PdfToImage.images doc) (Z.to_nat i) = Some image
    /\ PdfToImage.__getitem__ doc i = inr image.
Proof.
  intros Hi. unfold PdfToImage.__getitem__, list_getitem, PdfToImage.__len__ in *.
  set (n := Z.of_nat (List.length (PdfToImage.images doc))) in *.
  assert (L : (i <? 0) = false) by (apply Z.ltb_ge; lia). rewrite L.
  assert (R : (0 <=? i) && (i <? n) = true).
  { apply andb_true_iff. split; [apply Z.leb_le|apply Z.ltb_lt]; lia. }
  rewrite R.
  destruct (nth_error (PdfToImage.images doc) (Z.to_nat i)) as [image|] eqn:E.
  - exists image. split; reflexivity.
  - apply nth_error_None in E. unfold n in *. lia.
Qed.

Lemma getitem_past_end (doc : PdfToImage.t) (i : Z) :
  PdfToImage.__len__ doc <= i -> PdfToImage.__getitem__ doc i = inl IndexError.
Proof.
  intros Hi. unfold PdfToImage.__getitem__, list_getitem, PdfToImage.__len__ in *.
  set (n := Z.of_nat (List.length (PdfToImage.images doc))) in *.
  assert (Hn : 0 <= n) by (unfold n; lia).
  assert (L : (i <? 0) = false) by (apply Z.ltb_ge; lia). rewrite L.
  assert (R : (i <? n) = false) by (apply Z.ltb_ge; lia). rewrite R.
  now rewrite Bool.andb_false_r.
Qed.

Lemma getitem_from_end (doc : PdfToImage.t) (i : Z) :
  - PdfToImage.__len__ doc <= i < 0 ->
  exists image : PpmImageFile,
    nth_error (PdfToImage.images doc) (Z.to_nat (PdfToImage.__len__ doc + i))
    = Some image
    /\ PdfToImage.__getitem__ doc i = inr image.
Proof.
  intros Hi. unfold PdfToImage.__getitem__, list_getitem, PdfToImage.__len__ in *.
  set (n := Z.of_nat (List.length (PdfToImage.images doc))) in *.
  assert (L : (i <? 0) = true) by (apply Z.ltb_lt; lia). rewrite L.
  assert (R : (0 <=? i + n) && (i + n <? n) = true).
  { apply andb_true_iff. split; [apply Z.leb_le|apply Z.ltb_lt]; lia. }
  rewrite R, (Z.add_comm n i).
  destruct (nth_error (PdfToImage.images doc) (Z.to_nat (i + n))) as [image|] eqn:E.
  - exists image. split; reflexivity.
  - apply nth_error_None in E. unfold n in *. lia.
Qed.

Lemma getitem_raises_IndexError (doc : PdfToImage.t) (i : Z) (e : exn) :
  PdfToImage.__getitem__ doc i = inl e -> e = IndexError.
Proof.
  unfold PdfToImage.__getitem__, list_getitem.
  destruct (_ && _); [destruct (nth_error _ _)|]; congruence.
Qed.

(** X13: a click on next, when there is a page after the current one,
    shows that page, names it in the label, enables previous and leaves
    next enabled unless the new page is the last. *)
Theorem display_next_page_shows_next (w : t) (doc : PdfToImage.t) :
  pdf w = Some doc ->
  0 <= current_page w + 1 < PdfToImage.__len__ doc ->
  exists image : PpmImageFile,
    nth_error (PdfToImage.images doc) (Z.to_nat (current_page w + 1)) = Some image
    /\ display_next_page w
       = (inr tt,
          mk (Some doc) (filename w) (current_page w + 1)
             (str (current_page w + 2) ++ " / " ++ str (PdfToImage.__len__ doc))
             true (negb (current_page w + 1 =? PdfToImage.__len__ doc - 1))
             (Canvas.reload (canvas w) image)).
Proof.
  intros Hp Hn. destruct (getitem_nth doc _ Hn) as (image & Hnth & Hget).
  exists image. split; [exact Hnth|].
  rewrite display_next_page_spec, Hp, Hget.
  now replace (current_page w + 1 + 1) with (current_page w + 2) by lia.
Qed.

Lemma display_next_page_shows_next_witness :
  let w := snd (handle_all Sample.convert_from_path [ChooseFile "three.pdf"]
                           Sample.window) in
  let doc := PdfToImage.mk [Sample.portrait; Sample.landscape; Sample.portrait] in
  pdf w = Some doc
  /\ 0 <= current_page w + 1 < PdfToImage.__len__ doc
  /\ exists image : PpmImageFile,
       nth_error (PdfToImage.images doc) (Z.to_nat (current_page w + 1)) = Some image
       /\ display_next_page w
          = (inr tt,
             mk (Some doc) (filename w) (current_page w + 1)
                (str (current_page w + 2) ++ " / " ++ str (PdfToImage.__len__ doc))
                true (negb (current_page w + 1 =? PdfToImage.__len__ doc - 1))
                (Canvas.reload (canvas w) image)).
Proof.
  intros w doc.
  assert (A : pdf w = Some doc) by reflexivity.
  assert (B : 0 <= current_page w + 1 < PdfToImage.__len__ doc)
    by (vm_compute; split; [discriminate|reflexivity]).
  exact (conj A (conj B (display_next_page_shows_next w doc A B))).
Defined.


(** X14: a click on next on the last page, or past it, raises
    [IndexError]; the page index has been incremented and stays so, and
    nothing else has changed. *)
Theorem display_next_page_past_end (w : t) (doc : PdfToImage.t) :
  pdf w = Some doc ->
  PdfToImage.__len__ doc <= current_page w + 1 ->
  display_next_page w
  = (inl IndexError,
     mk (pdf w) (filename w) (current_page w + 1) (label_pages w)
        (button_prev_page w) (button_next_page w) (canvas w)).
Proof.
  intros Hp Hn. rewrite display_next_page_spec, Hp, (getitem_past_end doc _ Hn).
  unfold set_current_page. now rewrite Hp.
Qed.

Lemma display_next_page_past_end_witness :
  let w := snd (handle_all Sample.convert_from_path [ChooseFile "one.pdf"]
                           Sample.window) in
  let doc := PdfToImage.mk [Sample.portrait] in
  pdf w = Some doc
  /\ PdfToImage.__len__ doc <= current_page w + 1
  /\ display_next_page w
     = (inl IndexError,
        mk (pdf w) (filename w) (current_page w + 1) (label_pages w)
           (button_prev_page w) (button_next_page w) (canvas w)).
Proof.
  intros w doc.
  assert (A : pdf w = Some doc) by reflexivity.
  assert (B : PdfToImage.__len__ doc <= current_page w + 1)
    by (vm_compute; discriminate).
  exact (conj A (conj B (display_next_page_past_end w doc A B))).
Defined.


(** X15: a click on previous on page 0 does not raise: the index becomes
    -1, the last page is shown, the label reads "0 / N" and both buttons are
    enabled. *)
Theorem display_prev_page_wraps (w : t) (doc : PdfToImage.t) :
  pdf w = Some doc ->
  current_page w = 0 ->
  1 <= PdfToImage.__len__ doc ->
  exists image : PpmImageFile,
    nth_error (PdfToImage.images doc) (Z.to_nat (PdfToImage.__len__ doc - 1))
    = Some image
    /\ display_prev_page w
       = (inr tt,
          mk (Some doc) (filename w) (-1)
             ("0 / " ++ str (PdfToImage.__len__ doc))
             true true (Canvas.reload (canvas w) image)).
Proof.
  intros Hp Hc Hn.
  destruct (getitem_from_end doc (-1) ltac:(lia)) as (image & Hnth & Hget).
  exists image. split.
  - now replace (PdfToImage.__len__ doc - 1) with (PdfToImage.__len__ doc + -1) by lia.
  - rewrite display_prev_page_spec, Hp, Hc. simpl Z.sub. now rewrite Hget.
Qed.

Lemma display_prev_page_wraps_witness :
  let w := snd (handle_all Sample.convert_from_path
                           [ChooseFile "three.pdf"; ClickNext; ChooseFile "three.pdf"]
                           Sample.window) in
  let doc := PdfToImage.mk [Sample.portrait; Sample.landscape; Sample.portrait] in
  pdf w = Some doc
  /\ current_page w = 0
  /\ 1 <= PdfToImage.__len__ doc
  /\ exists image : PpmImageFile,
       nth_error (PdfToImage.images doc) (Z.to_nat (PdfToImage.__len__ doc - 1))
       = Some image
       /\ display_prev_page w
          = (inr tt,
             mk (Some doc) (filename w) (-1)
                ("0 / " ++ str (PdfToImage.__len__ doc))
                true true (Canvas.reload (canvas w) image)).
Proof.
  intros w doc.
  assert (A : pdf w = Some doc) by reflexivity.
  assert (B : current_page w = 0) by reflexivity.
  assert (C : 1 <= PdfToImage.__len__ doc) by (vm_compute; discriminate).
  exact (conj A (conj B (conj C (display_prev_page_wraps w doc A B C)))).
Defined.


(** X16: the open of a document with at least one page shows its first
    page, labelled "1 / N", with next enabled; the previous button is left
    as it was. *)
Theorem select_file_opens
  (convert_from_path : string -> Z -> exn + list PpmImageFile)
  (chosen : string) (first : PpmImageFile) (rest : list PpmImageFile) (w : t) :
  chosen <> ""%string ->
  convert_from_path chosen PdfToImage.default_dpi = inr (first :: rest) ->
  select_file convert_from_path chosen w
  = (inr tt,
     mk (Some (PdfToImage.mk (first :: rest))) chosen 0
        ("1 / " ++ str (Z.of_nat (List.length (first :: rest))))
        (button_prev_page w) true (Canvas.reload (canvas w) first)).
Proof.
  intros Hne Hconv. rewrite (select_file_spec _ _ _ Hne), Hconv.
  unfold PdfToImage.__getitem__, list_getitem.
  cbn [PdfToImage.images]. rewrite Z.ltb_irrefl.
  assert (R : (0 <=? 0) && (0 <? Z.of_nat (List.length (first :: rest))) = true)
    by (apply andb_true_iff; split; [reflexivity|apply Z.ltb_lt; simpl; lia]).
  rewrite R. reflexivity.
Qed.

Lemma select_file_opens_witness :
  "three.pdf"%string <> ""%string
  /\ Sample.convert_from_path "three.pdf" PdfToImage.default_dpi
     = inr [Sample.portrait; Sample.landscape; Sample.portrait]
  /\ select_file Sample.convert_from_path "three.pdf" Sample.window
     = (inr tt,
        mk (Some (PdfToImage.mk [Sample.portrait; Sample.landscape; Sample.portrait]))
           "three.pdf" 0
           ("1 / " ++ str (Z.of_nat (List.length
                                       [Sample.portrait; Sample.landscape; Sample.portrait])))
           (button_prev_page Sample.window) true
           (Canvas.reload (canvas Sample.window) Sample.portrait)).
Proof.
  assert (A : "three.pdf"%string <> ""%string) by discriminate.
  assert (B : Sample.convert_from_path "three.pdf" PdfToImage.default_dpi
              = inr [Sample.portrait; Sample.landscape; Sample.portrait])
    by reflexivity.
  exact (conj A (conj B (select_file_opens _ _ _ _ Sample.window A B))).
Defined.


(** X17: the open of a document without pages raises [IndexError] after
    the empty document has replaced the one that was open; the canvas, the
    label and the buttons still belong to the old one. *)
Theorem select_file_empty_document
  (convert_from_path : string -> Z -> exn + list PpmImageFile)
  (chosen : string) (w : t) :
  chosen <> ""%string ->
  convert_from_path chosen PdfToImage.default_dpi = inr [] ->
  select_file convert_from_path chosen w
  = (inl IndexError,
     mk (Some (PdfToImage.mk [])) chosen 0 (label_pages w)
        (button_prev_page w) (button_next_page w) (canvas w)).
Proof.
  intros Hne Hconv. now rewrite (select_file_spec _ _ _ Hne), Hconv.
Qed.

Lemma select_file_empty_document_witness :
  let convert := fun (_ : string) (_ : Z) => @inr exn (list PpmImageFile) [] in
  "empty.pdf"%string <> ""%string
  /\ convert "empty.pdf"%string PdfToImage.default_dpi = inr []
  /\ select_file convert "empty.pdf" Sample.window
     = (inl IndexError,
        mk (Some (PdfToImage.mk [])) "empty.pdf" 0 (label_pages Sample.window)
           (button_prev_page Sample.window) (button_next_page Sample.window)
           (canvas Sample.window)).
Proof.
  intros convert.
  assert (A : "empty.pdf"%string <> ""%string) by discriminate.
  assert (B : convert "empty.pdf"%string PdfToImage.default_dpi = inr []) by reflexivity.
  exact (conj A (conj B (select_file_empty_document convert _ Sample.window A B))).
Defined.


Lemma handle_all_cons
  (convert_from_path : string -> Z -> exn + list PpmImageFile)
  (a : Action) (rest : list Action) (w : t) :
  handle_all convert_from_path (a :: rest) w
  = match handle convert_from_path a w with
    | (inl e, w') => (inl e, w')
    | (inr _, w') => handle_all convert_from_path rest w'
    end.
Proof. reflexivity. Qed.

Lemma handle_click_next
  (convert_from_path : string -> Z -> exn + list PpmImageFile) (w : t) :
  handle convert_from_path ClickNext w
  = if button_next_page w then display_next_page w else (inr tt, w).
Proof. unfold handle, bind, get, ret. now destruct (button_next_page w). Qed.

Lemma handle_click_prev
  (convert_from_path : string -> Z -> exn + list PpmImageFile) (w : t) :
  handle convert_from_path ClickPrev w
  = if button_prev_page w then display_prev_page w else (inr tt, w).
Proof. unfold handle, bind, get, ret. now destruct (button_prev_page w). Qed.

Lemma click_keeps_navigable
  (convert_from_path : string -> Z -> exn + list PpmImageFile)
  (doc : PdfToImage.t) (a : Action) (w : t) :
  Shown.click a ->
  pdf w = Some doc -> 0 <= current_page w < PdfToImage.__len__ doc ->
  Shown.boundaries w doc ->
  exists w' : t,
    handle convert_from_path a w = (inr tt, w')
    /\ pdf w' = Some doc /\ 0 <= current_page w' < PdfToImage.__len__ doc
    /\ Shown.boundaries w' doc
    /\ (Shown.current w doc -> Shown.current w' doc).
Proof.
  intros Ha Hp Hn [Bp Bn]. destruct a as [chosen| |]; [contradiction| |].
  - rewrite handle_click_next, Bn.
    destruct (Z.eqb_spec (current_page w) (PdfToImage.__len__ doc - 1)) as [E|E]; simpl.
    + exists w. unfold Shown.boundaries. rewrite Bp, Bn. repeat split; auto; lia.
    + destruct (getitem_nth doc (current_page w + 1) ltac:(lia)) as (image & _ & Hget).
      rewrite display_next_page_spec, Hp, Hget. eexists. split; [reflexivity|].
      unfold Shown.boundaries, Shown.current.
      cbn [pdf current_page button_prev_page button_next_page canvas label_pages].
      split; [reflexivity|]. split; [lia|]. split.
      * split; [|reflexivity].
        symmetry. apply Bool.negb_true_iff, Z.eqb_neq. lia.
      * intros _. exists image. repeat split; assumption || reflexivity.
  - rewrite handle_click_prev, Bp.
    destruct (Z.eqb_spec (current_page w) 0) as [E|E]; simpl.
    + exists w. unfold Shown.boundaries. rewrite Bp, Bn. repeat split; auto; lia.
    + destruct (getitem_nth doc (current_page w - 1) ltac:(lia)) as (image & _ & Hget).
      rewrite display_prev_page_spec, Hp, Hget. eexists. split; [reflexivity|].
      unfold Shown.boundaries, Shown.current.
      cbn [pdf current_page button_prev_page button_next_page canvas label_pages].
      split; [reflexivity|]. split; [lia|]. split.
      * split; [reflexivity|].
        symmetry. apply Bool.negb_true_iff, Z.eqb_neq. lia.
      * intros _. exists image. repeat split; assumption || reflexivity.
Qed.

Lemma clicks_keep_navigable
  (convert_from_path : string -> Z -> exn + list PpmImageFile)
  (doc : PdfToImage.t) (clicks : list Action) (w : t) :
  Forall Shown.click clicks ->
  pdf w = Some doc -> 0 <= current_page w < PdfToImage.__len__ doc ->
  Shown.boundaries w doc -> Shown.current w doc ->
  exists w' : t,
    handle_all convert_from_path clicks w = (inr tt, w')
    /\ pdf w' = Some doc /\ 0 <= current_page w' < PdfToImage.__len__ doc
    /\ Shown.boundaries w' doc /\ Shown.current w' doc.
Proof.
  revert w. induction clicks as [|a rest IH]; intros w Hall Hp Hn Hb Hs.
  - exists w. split; [reflexivity|]. split; [assumption|].
    split; [assumption|]. split; assumption.
  - inversion Hall as [|? ? Ha Hrest]; subst.
    destruct (click_keeps_navigable convert_from_path doc a w Ha Hp Hn Hb)
      as (w1 & E & Hp1 & Hn1 & Hb1 & Hs1).
    rewrite handle_all_cons, E. apply (IH w1 Hrest Hp1 Hn1 Hb1 (Hs1 Hs)).
Qed.

(** X18: after the first open of a document with at least two pages, no
    sequence of clicks on next and previous raises; the page index stays
    within the document, each button is disabled exactly on its boundary
    page, and the canvas shows the current page. *)
Theorem navigation_after_first_open
  (convert_from_path : string -> Z -> exn + list PpmImageFile)
  (canvas_width canvas_height : Z) (welcome : QPixmap)
  (chosen : string) (pages : list PpmImageFile) (clicks : list Action) :
  chosen <> ""%string ->
  convert_from_path chosen PdfToImage.default_dpi = inr pages ->
  2 <= Z.of_nat (List.length pages) ->
  Forall Shown.click clicks ->
  exists w : t,
    handle_all convert_from_path (ChooseFile chosen :: clicks)
               (__init__ canvas_width canvas_height welcome)
    = (inr tt, w)
    /\ pdf w = Some (PdfToImage.mk pages)
    /\ 0 <= current_page w < Z.of_nat (List.length pages)
    /\ Shown.boundaries w (PdfToImage.mk pages)
    /\ Shown.current w (PdfToImage.mk pages).
Proof.
  intros Hne Hconv Hlen Hclicks.
  destruct pages as [|first rest]; [simpl in Hlen; lia|].
  destruct (getitem_nth (PdfToImage.mk (first :: rest)) 0) as (image & Hnth & Hget);
    [unfold PdfToImage.__len__; cbn [PdfToImage.images]; lia|].
  simpl in Hnth. injection Hnth as <-.
  rewrite handle_all_cons. cbn [handle].
  rewrite (select_file_spec _ _ _ Hne), Hconv, Hget.
  apply clicks_keep_navigable; unfold Shown.boundaries, Shown.current, PdfToImage.__len__;
    cbn [pdf current_page button_prev_page button_next_page canvas label_pages
         __init__ PdfToImage.images].
  - exact Hclicks.
  - reflexivity.
  - lia.
  - split; [reflexivity|]. symmetry. apply Bool.negb_true_iff, Z.eqb_neq. lia.
  - exists first. split; [exact Hget|split; reflexivity].
Qed.

Lemma navigation_after_first_open_witness :
  let pages := [Sample.portrait; Sample.landscape; Sample.portrait] in
  let clicks := [ClickNext; ClickNext; ClickNext; ClickPrev] in
  "three.pdf"%string <> ""%string
  /\ Sample.convert_from_path "three.pdf" PdfToImage.default_dpi = inr pages
  /\ 2 <= Z.of_nat (List.length pages)
  /\ Forall Shown.click clicks
  /\ exists w : t,
       handle_all Sample.convert_from_path (ChooseFile "three.pdf" :: clicks)
                  (__init__ 700 800 Sample.welcome)
       = (inr tt, w)
       /\ pdf w = Some (PdfToImage.mk pages)
       /\ 0 <= current_page w < Z.of_nat (List.length pages)
       /\ Shown.boundaries w (PdfToImage.mk pages)
       /\ Shown.current w (PdfToImage.mk pages).
Proof.
  intros pages clicks.
  assert (A : "three.pdf"%string <> ""%string) by discriminate.
  assert (B : Sample.convert_from_path "three.pdf" PdfToImage.default_dpi = inr pages)
    by reflexivity.
  assert (C : 2 <= Z.of_nat (List.length pages)) by (vm_compute; discriminate).
  assert (D : Forall Shown.click clicks) by (repeat constructor).
  exact (conj A (conj B (conj C (conj D
    (navigation_after_first_open Sample.convert_from_path 700 800 Sample.welcome
                                 "three.pdf" pages clicks A B C D))))).
Defined.


Lemma handle_keeps_shown
  (convert_from_path : string -> Z -> exn + list PpmImageFile)
  (init : t) (a : Action) (w w' : t) :
  button_prev_page init = false -> button_next_page init = false ->
  match pdf w with None => w = init | Some doc => Shown.current w doc end ->
  handle convert_from_path a w = (inr tt, w') ->
  match pdf w' with None => w' = init | Some doc => Shown.current w' doc end.
Proof.
  intros Ip In Hw. destruct a as [chosen| |].
  - cbn [handle]. destruct (String.eqb_spec chosen "") as [->|Hne].
    + unfold select_file. simpl. unfold ret. intros [= <-]. exact Hw.
    + rewrite (select_file_spec _ _ _ Hne).
      destruct (convert_from_path chosen PdfToImage.default_dpi) as [e|pages];
        [discriminate|].
      destruct (PdfToImage.__getitem__ (PdfToImage.mk pages) 0) as [e|image] eqn:G;
        [discriminate|].
      intros [= <-]. cbn [pdf]. exists image. cbn [current_page canvas label_pages].
      split; [exact G|split; reflexivity].
  - rewrite handle_click_next. destruct (button_next_page w) eqn:B.
    + rewrite display_next_page_spec. destruct (pdf w) as [doc|]; [|discriminate].
      destruct (PdfToImage.__getitem__ doc (current_page w + 1)) as [e|image] eqn:G;
        [discriminate|].
      intros [= <-]. cbn [pdf]. exists image. cbn [current_page canvas label_pages].
      split; [exact G|split; reflexivity].
    + intros [= <-]. exact Hw.
  - rewrite handle_click_prev. destruct (button_prev_page w) eqn:B.
    + rewrite display_prev_page_spec. destruct (pdf w) as [doc|]; [|discriminate].
      destruct (PdfToImage.__getitem__ doc (current_page w - 1)) as [e|image] eqn:G;
        [discriminate|].
      intros [= <-]. cbn [pdf]. exists image. cbn [current_page canvas label_pages].
      split; [exact G|split; reflexivity].
    + intros [= <-]. exact Hw.
Qed.

Lemma handle_all_keeps_shown
  (convert_from_path : string -> Z -> exn + list PpmImageFile)
  (init : t) (actions : list Action) (w w' : t) :
  button_prev_page init = false -> button_next_page init = false ->
  match pdf w with None => w = init | Some doc => Shown.current w doc end ->
  handle_all convert_from_path actions w = (inr tt, w') ->
  match pdf w' with None => w' = init | Some doc => Shown.current w' doc end.
Proof.
  intros Ip In. revert w. induction actions as [|a rest IH]; intros w Hw.
  - intros [= <-]. exact Hw.
  - rewrite handle_all_cons.
    destruct (handle convert_from_path a w) as [[e|[]] w1] eqn:E; [discriminate|].
    apply IH. exact (handle_keeps_shown _ init a w w1 Ip In Hw E).
Qed.

(** X19: whenever a sequence of actions has been handled without an
    exception, either no document has been opened and the window is as
    [__init__] built it, or the canvas holds the page at [current_page],
    with nothing painted on it, and the label names that page. *)
Theorem canvas_shows_current_page
  (convert_from_path : string -> Z -> exn + list PpmImageFile)
  (canvas_width canvas_height : Z) (welcome : QPixmap)
  (actions : list Action) (w : t) :
  handle_all convert_from_path actions (__init__ canvas_width canvas_height welcome)
  = (inr tt, w) ->
  match pdf w with
  | None => w = __init__ canvas_width canvas_height welcome
  | Some doc => Shown.current w doc
  end.
Proof.
  apply handle_all_keeps_shown; reflexivity.
Qed.

Lemma canvas_shows_current_page_witness :
  let actions := [ChooseFile "three.pdf"; ClickNext; ChooseFile ""; ClickPrev] in
  let w := snd (handle_all Sample.convert_from_path actions
                           (__init__ 700 800 Sample.welcome)) in
  handle_all Sample.convert_from_path actions (__init__ 700 800 Sample.welcome)
  = (inr tt, w)
  /\ match pdf w with
     | None => w = __init__ 700 800 Sample.welcome
     | Some doc => Shown.current w doc
     end.
Proof.
  intros actions w.
  assert (A : handle_all Sample.convert_from_path actions
                         (__init__ 700 800 Sample.welcome) = (inr tt, w))
    by (vm_compute; reflexivity).
  split; [exact A|].
  exact (canvas_shows_current_page Sample.convert_from_path 700 800
                                   Sample.welcome actions w A).
Defined.


Lemma handle_raises
  (convert_from_path : string -> Z -> exn + list PpmImageFile)
  (init : t) (a : Action) (w w' : t) (e : exn) :
  button_prev_page init = false -> button_next_page init = false ->
  match pdf w with None => w = init | Some doc => Shown.current w doc end ->
  handle convert_from_path a w = (inl e, w') ->
  e = IndexError
  \/ exists path : string, convert_from_path path PdfToImage.default_dpi = inl e.
Proof.
  intros Ip In Hw. destruct a as [chosen| |].
  - cbn [handle]. destruct (String.eqb_spec chosen "") as [->|Hne].
    + unfold select_file. simpl. unfold ret. discriminate.
    + rewrite (select_file_spec _ _ _ Hne).
      destruct (convert_from_path chosen PdfToImage.default_dpi) as [e'|pages] eqn:C.
      * intros [= <- _]. right. exists chosen. exact C.
      * destruct (PdfToImage.__getitem__ (PdfToImage.mk pages) 0) as [e'|image] eqn:G;
          [|discriminate].
        intros [= <- _]. left. exact (getitem_raises_IndexError _ _ _ G).
  - rewrite handle_click_next. destruct (button_next_page w) eqn:B; [|discriminate].
    rewrite display_next_page_spec. destruct (pdf w) as [doc|].
    + destruct (PdfToImage.__getitem__ doc (current_page w + 1)) as [e'|image] eqn:G;
        [|discriminate].
      intros [= <- _]. left. exact (getitem_raises_IndexError _ _ _ G).
    + subst w. congruence.
  - rewrite handle_click_prev. destruct (button_prev_page w) eqn:B; [|discriminate].
    rewrite display_prev_page_spec. destruct (pdf w) as [doc|].
    + destruct (PdfToImage.__getitem__ doc (current_page w - 1)) as [e'|image] eqn:G;
        [|discriminate].
      intros [= <- _]. left. exact (getitem_raises_IndexError _ _ _ G).
    + subst w. congruence.
Qed.

Lemma handle_all_raises
  (convert_from_path : string -> Z -> exn + list PpmImageFile)
  (init : t) (actions : list Action) (w : t) (e : exn) :
  button_prev_page init = false -> button_next_page init = false ->
  match pdf w with None => w = init | Some doc => Shown.current w doc end ->
  fst (handle_all convert_from_path actions w) = inl e ->
  e = IndexError
  \/ exists path : string, convert_from_path path PdfToImage.default_dpi = inl e.
Proof.
  intros Ip In. revert w. induction actions as [|a rest IH]; intros w Hw.
  - discriminate.
  - rewrite handle_all_cons.
    destruct (handle convert_from_path a w) as [[e'|[]] w1] eqn:E.
    + simpl. intros H. injection H as H. subst e'.
      exact (handle_raises _ init a w w1 e Ip In Hw E).
    + apply IH. exact (handle_keeps_shown _ init a w w1 Ip In Hw E).
Qed.

(** X20: the only exceptions a sequence of actions can end in are
    [IndexError] and the exceptions of the rasterizer; in particular the
    document is never missing when a page is asked for. *)
Theorem only_page_and_rasterizer_errors
  (convert_from_path : string -> Z -> exn + list PpmImageFile)
  (canvas_width canvas_height : Z) (welcome : QPixmap)
  (actions : list Action) (e : exn) :
  fst (handle_all convert_from_path actions
                  (__init__ canvas_width canvas_height welcome)) = inl e ->
  e = IndexError
  \/ exists path : string, convert_from_path path PdfToImage.default_dpi = inl e.
Proof.
  apply (handle_all_raises _ (__init__ canvas_width canvas_height welcome));
    reflexivity.
Qed.

Lemma only_page_and_rasterizer_errors_witness :
  let actions := [ChooseFile "one.pdf"; ClickNext] in
  fst (handle_all Sample.convert_from_path actions (__init__ 700 800 Sample.welcome))
  = inl IndexError
  /\ (IndexError = IndexError
      \/ exists path : string,
           Sample.convert_from_path path PdfToImage.default_dpi = inl IndexError).
Proof.
  intros actions.
  assert (A : fst (handle_all Sample.convert_from_path actions
                              (__init__ 700 800 Sample.welcome)) = inl IndexError)
    by (vm_compute; reflexivity).
  exact (conj A (only_page_and_rasterizer_errors Sample.convert_from_path 700 800
                                                 Sample.welcome actions IndexError A)).
Defined.

End Navigation.
